(** * The bridge server's request/response correlation engine

    A shallow embedding of [bridge_server/server.js]: the [BridgeServer]
    object (its [extensionSocket] slot and its [pendingRequests] Map), the
    handlers it installs on the WebSocket server and on each socket, and
    [executeCommand] / [handleExtensionMessage].  Node runs every handler to
    completion on one thread, so a run of the server is a sequence of
    handler invocations; the model is a step function over such events. *)

From stdpp Require Import base option strings list gmap pretty sorting.

Set Warnings "-register-all".

(** ** JSON values

    Request bodies and WebSocket frames reach the code already parsed
    ([express.json()], [JSON.parse]).  Objects are finite maps from property
    names to values; numbers are carried opaquely (the code never computes
    with them). *)

Inductive json : Type :=
  | JNull
  | JBool (b : bool)
  | JNum (n : Z)
  | JStr (s : string)
  | JArr (items : list json)
  | JObj (fields : gmap string json).

(** [const { id } = message]: reading property [id].  [None] is
    [undefined]; [null] has no properties at all and the read throws. *)
Inductive completion (A : Type) : Type :=
  | Normal (a : A)
  | Throw (what : string).
Arguments Normal {A} a.
Arguments Throw {A} what.

Definition destructure_id (message : json) : completion (option json) :=
  match message with
  | JNull => Throw "TypeError"
  | JObj fields => Normal (fields !! "id")
  | _ => Normal None
  end.

(** [...command]: the own enumerable properties copied by object spread.
    Arrays contribute their elements under their indices, strings their
    characters, the other primitives and [null] nothing. *)
Definition own_props (v : json) : gmap string json :=
  match v with
  | JObj fields => fields
  | JArr items => list_to_map (imap (λ i x, (pretty i, x)) items)
  | JStr s =>
      list_to_map
        (imap (λ i c, (pretty i, JStr (String c EmptyString)))
              (String.list_ascii_of_string s))
  | _ => ∅
  end.

(** [{ id, ...command }]: [id] is written first, then every property of
    [command] is copied over it, so a property of [command] named [id]
    replaces the one just written. *)
Definition spread_after_id (id : string) (command : json) : json :=
  JObj (own_props command ∪ {[ "id" := JStr id ]}).

(** The four results the server builds itself. *)
Definition failure (error : string) : json :=
  JObj {[ "success" := JBool false; "error" := JStr error ]}.

Definition not_connected : json := failure "Extension not connected".
Definition request_timeout : json := failure "Request timeout".
Definition send_failed : json := failure "Failed to send to extension".
Definition extension_disconnected : json := failure "Extension disconnected".

(** ** JavaScript [Map] with string keys

    Entries are kept in insertion order, which is the order [forEach]
    visits them in; [set] on a present key keeps the entry's position. *)
Module JsMap.
Section Ops.
Context {V : Type}.

Fixpoint get (k : string) (m : list (string * V)) : option V :=
  match m with
  | [] => None
  | (k', v) :: m' => if decide (k' = k) then Some v else get k m'
  end.

Definition has (k : string) (m : list (string * V)) : bool :=
  match get k m with Some _ => true | None => false end.

Fixpoint set (k : string) (v : V) (m : list (string * V)) : list (string * V) :=
  match m with
  | [] => [(k, v)]
  | (k', v') :: m' =>
      if decide (k' = k) then (k', v) :: m' else (k', v') :: set k v m'
  end.

Fixpoint delete (k : string) (m : list (string * V)) : list (string * V) :=
  match m with
  | [] => []
  | (k', v) :: m' =>
      if decide (k' = k) then delete k m' else (k', v) :: delete k m'
  end.

Definition size (m : list (string * V)) : nat := length m.

Definition clear (m : list (string * V)) : list (string * V) := [].

End Ops.
End JsMap.

(** ** Server state and its environment *)

(** A socket object handed to the [connection] handler. *)
Definition socket := nat.

(** The [resolve] function of the Promise made by the n-th call of
    [executeCommand]. *)
Definition waiter := nat.

(** A callback armed by [setTimeout]; the closure captures [id] and
    [resolve]. *)
Record timer : Type := mkTimer {
  due : N;
  timer_id : string;
  timer_resolve : waiter;
}.

Record state : Type := mkState {
  (* fields of the BridgeServer object *)
  extensionSocket : option socket;
  pendingRequests : list (string * waiter);
  (* the runtime around it *)
  clients : list socket;           (* sockets whose close event is still to come *)
  uuid_calls : nat;                (* calls of uuidv4() made so far *)
  promises : nat;                  (* Promises made by executeCommand so far *)
  timers : list timer;             (* setTimeout callbacks not yet run *)
  clock : N;                       (* milliseconds *)
  settled : list (waiter * json);  (* calls of resolve functions, oldest first *)
  outbox : list (socket * json);   (* messages accepted by ws.send, oldest first *)
}.

(** [new BridgeServer()] *)
Definition init : state :=
  mkState None [] [] 0 0 [] 0%N [] [].

Definition with_socket (x : option socket) (s : state) : state :=
  mkState x (pendingRequests s) (clients s) (uuid_calls s) (promises s)
          (timers s) (clock s) (settled s) (outbox s).

Definition with_pending (m : list (string * waiter)) (s : state) : state :=
  mkState (extensionSocket s) m (clients s) (uuid_calls s) (promises s)
          (timers s) (clock s) (settled s) (outbox s).

Definition with_clients (l : list socket) (s : state) : state :=
  mkState (extensionSocket s) (pendingRequests s) l (uuid_calls s) (promises s)
          (timers s) (clock s) (settled s) (outbox s).

Definition with_timers (l : list timer) (s : state) : state :=
  mkState (extensionSocket s) (pendingRequests s) (clients s) (uuid_calls s)
          (promises s) l (clock s) (settled s) (outbox s).

Definition with_clock (t : N) (s : state) : state :=
  mkState (extensionSocket s) (pendingRequests s) (clients s) (uuid_calls s)
          (promises s) (timers s) t (settled s) (outbox s).

(** Calling a Promise's [resolve] with a value. *)
Definition resolve (w : waiter) (r : json) (s : state) : state :=
  mkState (extensionSocket s) (pendingRequests s) (clients s) (uuid_calls s)
          (promises s) (timers s) (clock s) (settled s ++ [(w, r)]) (outbox s).

(** [new Promise(...)] *)
Definition new_promise (s : state) : waiter * state :=
  (promises s,
   mkState (extensionSocket s) (pendingRequests s) (clients s) (uuid_calls s)
           (S (promises s)) (timers s) (clock s) (settled s) (outbox s)).

(** [setTimeout(callback, delay)] *)
Definition setTimeout (id : string) (w : waiter) (delay : N) (s : state) : state :=
  with_timers (timers s ++ [mkTimer (clock s + delay) id w]) s.

(** [ws.send(JSON.stringify(message))] returning normally. *)
Definition send (ws : socket) (message : json) (s : state) : state :=
  mkState (extensionSocket s) (pendingRequests s) (clients s) (uuid_calls s)
          (promises s) (timers s) (clock s) (settled s) (outbox s ++ [(ws, message)]).

(** What a Promise settles to: the argument of the first call of its
    [resolve]; later calls have no effect.  This is the body of the HTTP
    response, [res.json(await this.executeCommand(req.body))]. *)
Definition results_of (w : waiter) (s : state) : list json :=
  (filter (λ p, p.1 = w) (settled s)).*2.

Definition response (w : waiter) (s : state) : option json :=
  head (results_of w s).

(** [GET /health] and [GET /status] *)
Definition extensionConnected (s : state) : bool :=
  match extensionSocket s with Some _ => true | None => false end.

Definition pendingRequestCount (s : state) : nat :=
  JsMap.size (pendingRequests s).

(** ** The handlers *)

Section Server.

(** [uuidv4] comes from the [uuid] package and draws its result at random;
    [uuidv4 n] stands for what its n-th call in this process returns. *)
Variable uuidv4 : nat → string.

(** [executeCommand(command)].  [send_throws] tells whether
    [this.extensionSocket.send] throws on this call.  Returns the Promise
    (its [resolve]) together with the new state. *)
Definition executeCommand (command : json) (send_throws : bool) (s : state)
  : waiter * state :=
  let '(w, s) := new_promise s in
  match extensionSocket s with
  | None => (w, resolve w not_connected s)
  | Some ws =>
      let id := uuidv4 (uuid_calls s) in
      let s := mkState (extensionSocket s) (pendingRequests s) (clients s)
                       (S (uuid_calls s)) (promises s) (timers s) (clock s)
                       (settled s) (outbox s) in
      let message := spread_after_id id command in
      let s := with_pending (JsMap.set id w (pendingRequests s)) s in
      let s := setTimeout id w 30000 s in
      if send_throws then
        let s := with_pending (JsMap.delete id (pendingRequests s)) s in
        (w, resolve w send_failed s)
      else (w, send ws message s)
  end.

(** The callback given to [setTimeout] in [executeCommand]. *)
Definition timeout_callback (id : string) (w : waiter) (s : state) : state :=
  if JsMap.has id (pendingRequests s) then
    let s := with_pending (JsMap.delete id (pendingRequests s)) s in
    resolve w request_timeout s
  else s.

(** [this.pendingRequests.has(id)] for an arbitrary value [id]: the keys
    are strings, and only an equal string is the same key. *)
Definition lookup_key (id : option json) (m : list (string * waiter))
  : option (string * waiter) :=
  match id with
  | Some (JStr k) =>
      match JsMap.get k m with Some w => Some (k, w) | None => None end
  | _ => None
  end.

(** [handleExtensionMessage(message)] *)
Definition handleExtensionMessage (message : json) (s : state)
  : completion state :=
  match destructure_id message with
  | Throw e => Throw e
  | Normal id =>
      match lookup_key id (pendingRequests s) with
      | Some (k, w) =>
          let s := with_pending (JsMap.delete k (pendingRequests s)) s in
          Normal (resolve w message s)
      | None => Normal s
      end
  end.

(** [ws.on('message', ...)]: [parsed] is the outcome of
    [JSON.parse(data.toString())], [None] when it throws.  Whatever is
    thrown inside the [try] is logged and dropped. *)
Definition on_message (parsed : option json) (s : state) : state :=
  match parsed with
  | None => s
  | Some message =>
      match handleExtensionMessage message s with
      | Normal s' => s'
      | Throw _ => s
      end
  end.

(** [this.pendingRequests.forEach((resolve, id) => resolve({...}))] *)
Definition reject_all (m : list (string * waiter)) (s : state) : state :=
  foldl (λ acc entry, resolve entry.2 extension_disconnected acc) s m.

(** [ws.on('close', ...)] *)
Definition on_close (ws : socket) (s : state) : state :=
  let s := with_socket None s in
  let s := reject_all (pendingRequests s) s in
  with_pending (JsMap.clear (pendingRequests s)) s.

(** [this.wss.on('connection', ...)] *)
Definition on_connection (ws : socket) (s : state) : state :=
  with_socket (Some ws) s.

(** ** Runs of the server

    One event is one handler run to completion.  A timer may run at any
    moment from its due time on; a socket delivers messages and its close
    event only between its connection and its close. *)
Inductive event : Type :=
  | Post (command : json) (send_throws : bool)
  | WsConnection (ws : socket)
  | WsMessage (ws : socket) (parsed : option json)
  | WsClose (ws : socket)
  | TimerFires (k : nat)
  | Elapse (dt : N).

Definition step (e : event) (s : state) : option state :=
  match e with
  | Post command send_throws => Some (executeCommand command send_throws s).2
  | WsConnection ws =>
      if decide (ws ∈ clients s) then None
      else Some (on_connection ws (with_clients (clients s ++ [ws]) s))
  | WsMessage ws parsed =>
      if decide (ws ∈ clients s) then Some (on_message parsed s) else None
  | WsClose ws =>
      if decide (ws ∈ clients s)
      then Some (on_close ws (with_clients (filter (λ c, c ≠ ws) (clients s)) s))
      else None
  | TimerFires k =>
      match timers s !! k with
      | Some t =>
          if decide (due t ≤ clock s)%N
          then Some (timeout_callback (timer_id t) (timer_resolve t)
                       (with_timers (delete k (timers s)) s))
          else None
      | None => None
      end
  | Elapse dt => Some (with_clock (clock s + dt) s)
  end.

Fixpoint run (tr : list event) (s : state) : option state :=
  match tr with
  | [] => Some s
  | e :: tr' =>
      match step e s with
      | Some s' => run tr' s'
      | None => None
      end
  end.

Definition reachable (s : state) : Prop := ∃ tr, run tr init = Some s.

(** Letting enough time pass and then running every armed timer, oldest
    first. *)
Definition latest_due (l : list timer) : N :=
  foldr (λ t acc, N.max (due t) acc) 0%N l.

Definition flush (s : state) : list event :=
  Elapse (latest_due (timers s)) :: replicate (length (timers s)) (TimerFires 0).

(** ** What holds of every reachable state

    Keys and waiters of the table are pairwise distinct, every key was
    drawn from [uuidv4], every entry still has its timer armed, and a
    Promise is in the table exactly as long as its [resolve] has not been
    called. *)
Definition armed (w : waiter) (s : state) : Prop :=
  ∃ t, t ∈ timers s ∧ timer_resolve t = w.

Record invariant (s : state) : Prop := mkInvariant {
  inv_keys : NoDup (pendingRequests s).*1;
  inv_waiters : NoDup (pendingRequests s).*2;
  inv_issued : ∀ id w, (id, w) ∈ pendingRequests s →
    ∃ n, n < uuid_calls s ∧ id = uuidv4 n;
  inv_timer_issued : ∀ t, t ∈ timers s →
    ∃ n, n < uuid_calls s ∧ timer_id t = uuidv4 n;
  inv_pairing : ∀ t id w, t ∈ timers s → (id, w) ∈ pendingRequests s →
    timer_id t = id → timer_resolve t = w;
  inv_armed : ∀ id w, (id, w) ∈ pendingRequests s →
    ∃ t, t ∈ timers s ∧ timer_id t = id ∧ timer_resolve t = w;
  inv_created : ∀ id w, (id, w) ∈ pendingRequests s → w < promises s;
  inv_settled : ∀ w r, (w, r) ∈ settled s → w < promises s;
  inv_once : ∀ w, w < promises s →
    (results_of w s = [] ∧ w ∈ (pendingRequests s).*2) ∨
    (length (results_of w s) = 1 ∧ w ∉ (pendingRequests s).*2);
}.

End Server.

(** The results built by the server itself, as opposed to a message of the
    extension passed on. *)
Definition server_made (r : json) : Prop :=
  r = not_connected ∨ r = send_failed ∨ r = request_timeout ∨
  r = extension_disconnected.

(** A result is accounted for by a run when it is one of the server's own
    failures or a message the extension sent during the run. *)
Definition explained (tr : list event) (r : json) : Prop :=
  server_made r ∨ ∃ ws, WsMessage ws (Some r) ∈ tr.

(** ** Readings of the interface description

    Three statements of the interface description, written down as it
    words them, to be compared with what the handlers above do.  Each is
    stated for a generator that never repeats a value. *)

(** The request's own [timeout] (milliseconds) when it carries one, 30
    seconds otherwise. *)
Definition requested_timeout (command : json) : N :=
  match own_props command !! "timeout" with
  | Some (JNum n) => Z.to_N n
  | _ => 30000%N
  end.

(** "The registered deadline is the submission time plus the request's
    timeout." *)
Definition deadline_follows_request : Prop :=
  ∀ (uuidv4 : nat → string),
    (∀ i j, uuidv4 i = uuidv4 j → i = j) →
    ∀ tr s ws command send_throws,
    run uuidv4 tr init = Some s → extensionSocket s = Some ws →
    due <$> last (timers (executeCommand uuidv4 command send_throws s).2)
      = Some (clock s + requested_timeout command)%N.

(** "The caller receives the reply's payload minus [id]." *)
Definition reply_delivered_without_id : Prop :=
  ∀ (uuidv4 : nat → string),
    (∀ i j, uuidv4 i = uuidv4 j → i = j) →
    ∀ tr s fields k w,
    run uuidv4 tr init = Some s →
    fields !! "id" = Some (JStr k) →
    JsMap.get k (pendingRequests s) = Some w →
    response w (on_message (Some (JObj fields)) s)
      = Some (JObj (delete "id" fields)).

(** "A command accepted while connected can only end by a reply of the
    extension, by a disconnect or by the timeout." *)
Definition only_extension_disconnect_or_timeout : Prop :=
  ∀ (uuidv4 : nat → string),
    (∀ i j, uuidv4 i = uuidv4 j → i = j) →
    ∀ tr s ws command send_throws tr' s' r,
    run uuidv4 tr init = Some s → extensionSocket s = Some ws →
    run uuidv4 tr' (executeCommand uuidv4 command send_throws s).2 = Some s' →
    r ∈ results_of (promises s) s' →
    r = request_timeout ∨ r = extension_disconnected ∨
    ∃ ws', WsMessage ws' (Some r) ∈ tr'.

(** ** Sample data *)

(** A generator that never repeats itself. *)
Definition demo_uuid (n : nat) : string := "uuid-" +:+ pretty n.

Definition read_x : json :=
  JObj {[ "action" := JStr "read"; "selector" := JStr "#x" ]}.

Definition read_x_in_5s : json :=
  JObj {[ "action" := JStr "read"; "selector" := JStr "#x";
          "timeout" := JNum 5000 ]}.

Definition read_x_with_id : json :=
  JObj {[ "id" := JStr "abc"; "action" := JStr "read"; "selector" := JStr "#x" ]}.

Definition bogus : json := JObj {[ "action" := JStr "bogus" ]}.

(** The state a run of the server with [demo_uuid] ends in. *)
Definition after (tr : list event) : state :=
  default init (run demo_uuid tr init).

Definition hello (id : string) : gmap string json :=
  {[ "id" := JStr id; "success" := JBool true; "data" := JStr "hello";
     "elementType" := JStr "input" ]}.

(** An extension is connected. *)
Definition connected : list event := [WsConnection 1].

(** One request in flight. *)
Definition one_pending : list event := [WsConnection 1; Post read_x false].

(** Two requests in flight. *)
Definition two_pending : list event :=
  [WsConnection 1; Post read_x false; Post bogus false].

(** One request answered by its timer. *)
Definition timed_out : list event :=
  [WsConnection 1; Post read_x false; Elapse 30000; TimerFires 0].

(** ** Observers of a run *)

(** The Promises made so far whose [resolve] has not been called. *)
Definition unanswered (s : state) : list waiter :=
  filter (λ w, length (results_of w s) = 0) (seq 0 (promises s)).

Definition is_post (e : event) : bool :=
  match e with Post _ _ => true | _ => false end.

(** ** The extension's background script *)

(** Reading a property of a parsed value; [None] is [undefined].  Used for
    names that are no built-in property of strings or arrays. *)
Definition get_field (name : string) (v : json) : option json :=
  match v with
  | JObj fields => fields !! name
  | _ => None
  end.

(** JavaScript truthiness of a JSON value. *)
Definition truthy (v : json) : bool :=
  match v with
  | JNull => false
  | JBool b => b
  | JNum n => negb (n =? 0)%Z
  | JStr s => negb (String.eqb s "")
  | JArr _ | JObj _ => true
  end.

(** [JSON.stringify] of an object literal: properties whose value is
    [undefined] are left out. *)
Definition stringify_props (props : list (string * option json)) : json :=
  JObj (list_to_map (omap (λ p, pair p.1 <$> p.2) props)).

(** What the browser does with one command: the outcome of
    [findTargetTab], and for a tab the outcome of
    [chrome.tabs.sendMessage]. *)
Inductive content_outcome : Type :=
  | SendMessageThrows (message : string)
  | LastError (message : option string)
  | Response (response : option json).

Inductive page_outcome : Type :=
  | LookupThrows (message : string)
  | NoSuitableTab
  | TabFound (o : content_outcome).

(** [sendToContentScript(tabId, message)]: what the Promise resolves to;
    [Throw] when [chrome.tabs.sendMessage] throws and the Promise rejects. *)
Definition sendToContentScript (o : content_outcome) : completion json :=
  match o with
  | SendMessageThrows message => Throw message
  | LastError message =>
      Normal (stringify_props [("success", Some (JBool false));
                               ("error", JStr <$> message)])
  | Response response =>
      Normal (match response with
              | Some r =>
                  if truthy r then r
                  else failure "No response from content script"
              | None => failure "No response from content script"
              end)
  end.

(** [executeCommand(command)] of the background script: the object it
    returns, property by property. *)
Definition bg_executeCommand (command : json) (page : page_outcome)
  : completion (list (string * option json)) :=
  match command with
  | JNull => Throw "TypeError"
  | _ =>
      let id := get_field "id" command in
      let failed message :=
        [("id", id); ("success", Some (JBool false));
         ("error", Some (JStr message))] in
      Normal
        match page with
        | LookupThrows message => failed message
        | NoSuitableTab => failed "No suitable tab found"
        | TabFound o =>
            match sendToContentScript o with
            | Throw message => failed message
            | Normal result =>
                [("id", id);
                 ("success", get_field "success" result);
                 ("data", get_field "data" result);
                 ("error", get_field "error" result)]
            end
        end
  end.

Record background : Type := mkBackground {
  websocket : option nat;      (* null, or the WebSocket made last *)
  isConnected : bool;
  reconnectAttempts : nat;
  backoff : nat;               (* reconnectDelay is 2000 times 1.5, this many times *)
  sockets_made : nat;          (* WebSocket objects constructed so far *)
  reconnects : list nat;       (* every setTimeout(connectToBridge) so far, by backoff *)
  armed_reconnects : nat;      (* of which not yet run *)
  to_bridge : list json;       (* frames accepted by websocket.send, oldest first *)
}.

Definition maxReconnectAttempts : nat := 5.

(** [scheduleReconnect()] *)
Definition scheduleReconnect (bg : background) : background :=
  if decide (reconnectAttempts bg < maxReconnectAttempts) then
    mkBackground (websocket bg) (isConnected bg) (S (reconnectAttempts bg))
                 (S (backoff bg)) (sockets_made bg)
                 (reconnects bg ++ [backoff bg]) (S (armed_reconnects bg))
                 (to_bridge bg)
  else bg.

(** [connectToBridge()]; [throws] tells whether [new WebSocket] throws. *)
Definition connectToBridge (throws : bool) (bg : background) : background :=
  if throws then scheduleReconnect bg
  else
    mkBackground (Some (sockets_made bg)) (isConnected bg) (reconnectAttempts bg)
                 (backoff bg) (S (sockets_made bg)) (reconnects bg)
                 (armed_reconnects bg) (to_bridge bg).

(** [websocket.onopen] *)
Definition onopen (bg : background) : background :=
  mkBackground (websocket bg) true 0 (backoff bg) (sockets_made bg)
               (reconnects bg) (armed_reconnects bg) (to_bridge bg).

(** [websocket.onclose] *)
Definition onclose (bg : background) : background :=
  scheduleReconnect
    (mkBackground (websocket bg) false (reconnectAttempts bg) (backoff bg)
                  (sockets_made bg) (reconnects bg) (armed_reconnects bg)
                  (to_bridge bg)).

(** [sendToBridge(message)] *)
Definition sendToBridge (message : list (string * option json))
    (send_throws : bool) (bg : background) : background :=
  match websocket bg with
  | Some _ =>
      if isConnected bg then
        if send_throws then bg
        else
          mkBackground (websocket bg) (isConnected bg) (reconnectAttempts bg)
                       (backoff bg) (sockets_made bg) (reconnects bg)
                       (armed_reconnects bg)
                       (to_bridge bg ++ [stringify_props message])
      else bg
  | None => bg
  end.

(** [handleBridgeMessage(data)]; [parsed] is the outcome of
    [JSON.parse(data)].  The [catch] block reads [message], which is
    declared inside the [try] block and not in scope there, so entering it
    ends in a ReferenceError before anything is sent. *)
Definition handleBridgeMessage (parsed : option json) (page : page_outcome)
    (send_throws : bool) (bg : background) : completion background :=
  match parsed with
  | None => Throw "ReferenceError"
  | Some message =>
      match bg_executeCommand message page with
      | Throw _ => Throw "ReferenceError"
      | Normal result => Normal (sendToBridge result send_throws bg)
      end
  end.

(** [new OllamaBrowserBackground()] *)
Definition bg_start (throws : bool) : background :=
  connectToBridge throws (mkBackground None false 0 0 0 [] 0 []).

Inductive bg_event : Type :=
  | BgOpen
  | BgClose
  | BgReconnectTimer (throws : bool)
  | BgFrame (parsed : option json) (page : page_outcome) (send_throws : bool).

Definition bg_step (e : bg_event) (bg : background) : option background :=
  match e with
  | BgOpen => if decide (0 < sockets_made bg) then Some (onopen bg) else None
  | BgClose => if decide (0 < sockets_made bg) then Some (onclose bg) else None
  | BgReconnectTimer throws =>
      match armed_reconnects bg with
      | S n =>
          Some (connectToBridge throws
                  (mkBackground (websocket bg) (isConnected bg)
                     (reconnectAttempts bg) (backoff bg) (sockets_made bg)
                     (reconnects bg) n (to_bridge bg)))
      | 0 => None
      end
  | BgFrame parsed page send_throws =>
      if decide (0 < sockets_made bg) then
        Some match handleBridgeMessage parsed page send_throws bg with
             | Normal bg' => bg'
             | Throw _ => bg
             end
      else None
  end.

Fixpoint bg_run (tr : list bg_event) (bg : background) : option background :=
  match tr with
  | [] => Some bg
  | e :: tr' =>
      match bg_step e bg with
      | Some bg' => bg_run tr' bg'
      | None => None
      end
  end.

(** A failed attempt: a socket closing, or [new WebSocket] throwing. *)
Definition is_failure (e : bg_event) : bool :=
  match e with
  | BgClose | BgReconnectTimer true => true
  | _ => false
  end.

Definition failures (throws : bool) (tr : list bg_event) : nat :=
  (if throws then 1 else 0) + length (filter (λ e, is_failure e) tr).

(** The property names a reply of the background script can have. *)
Definition reply_fields : list string := ["id"; "success"; "data"; "error"].

(** What the reply says, given what the browser did. *)
Definition reply_reports (page : page_outcome) (fields : gmap string json) : Prop :=
  match page with
  | LookupThrows m | TabFound (SendMessageThrows m) =>
      fields !! "success" = Some (JBool false) ∧ fields !! "data" = None ∧
      fields !! "error" = Some (JStr m)
  | NoSuitableTab =>
      fields !! "success" = Some (JBool false) ∧ fields !! "data" = None ∧
      fields !! "error" = Some (JStr "No suitable tab found")
  | TabFound (LastError m) =>
      fields !! "success" = Some (JBool false) ∧ fields !! "data" = None ∧
      fields !! "error" = JStr <$> m
  | TabFound (Response (Some v)) =>
      if truthy v then
        fields !! "success" = get_field "success" v ∧
        fields !! "data" = get_field "data" v ∧
        fields !! "error" = get_field "error" v
      else
        fields !! "success" = Some (JBool false) ∧ fields !! "data" = None ∧
        fields !! "error" = Some (JStr "No response from content script")
  | TabFound (Response None) =>
      fields !! "success" = Some (JBool false) ∧ fields !! "data" = None ∧
      fields !! "error" = Some (JStr "No response from content script")
  end.

(** Counters of the reconnect logic that hold throughout a run. *)
Definition bg_counts (bg : background) : Prop :=
  reconnects bg = seq 0 (length (reconnects bg)) ∧
  backoff bg = length (reconnects bg) ∧
  reconnectAttempts bg ≤ maxReconnectAttempts ∧
  sockets_made bg + armed_reconnects bg ≤ S (length (reconnects bg)).

(** ** More sample data *)

(** A background script with an open connection to the bridge. *)
Definition bg_connected : background :=
  mkBackground (Some 0) true 0 0 1 [] 0 [].

(** A page whose content script answers a read. *)
Definition page_says_hello : page_outcome :=
  TabFound (Response (Some (JObj {[ "success" := JBool true;
                                    "data" := JStr "hello";
                                    "elementType" := JStr "input" ]}))).

(** The state a run of the background script ends in, when its first
    [new WebSocket] does not throw. *)
Definition bg_after (tr : list bg_event) : background :=
  default (bg_start false) (bg_run tr (bg_start false)).

(** The bridge is never reachable: seven sockets in a row close. *)
Definition seven_closes : list bg_event :=
  [BgClose; BgReconnectTimer false; BgClose; BgReconnectTimer false; BgClose;
   BgReconnectTimer false; BgClose; BgReconnectTimer false; BgClose;
   BgReconnectTimer false; BgClose; BgClose].

(** A connection that opens, drops, and comes back. *)
Definition drop_and_return : list bg_event :=
  [BgOpen; BgClose; BgReconnectTimer false; BgOpen; BgClose].

(** * Properties

    ** The Map operations *)
Module JsMapFacts.
Section Facts.
Context {V : Type}.
Implicit Types (m : list (string * V)) (k : string) (v : V).

Lemma get_Some_elem k v m : JsMap.get k m = Some v → (k, v) ∈ m.
Proof.
  induction m as [|[k' v'] m IH]; simpl; [done|].
  case_decide as Hk.
  - intros [= <-]. subst. left.
  - intros H. right. auto.
Qed.

Lemma get_None k m : JsMap.get k m = None ↔ k ∉ m.*1.
Proof.
  induction m as [|[k' v'] m IH]; simpl.
  - split; [intros _; apply not_elem_of_nil | done].
  - case_decide as Hk; rewrite not_elem_of_cons; simpl.
    + split; [done | intros [? _]; by subst].
    + rewrite IH. split; [intros ?; split; [by intros ->|done] | tauto].
Qed.

Lemma elem_get k v m : NoDup m.*1 → (k, v) ∈ m → JsMap.get k m = Some v.
Proof.
  induction m as [|[k' v'] m IH]; simpl.
  - intros _ H. by apply elem_of_nil in H.
  - rewrite NoDup_cons. intros [Hk' Hnd] [[= -> ->] | Hin]%elem_of_cons.
    + by rewrite decide_True.
    + case_decide as Hk; [|auto].
      subst. exfalso. apply Hk'. apply list_elem_of_fmap. by exists (k, v).
Qed.

Lemma has_true k m : JsMap.has k m = true ↔ k ∈ m.*1.
Proof.
  unfold JsMap.has. destruct (JsMap.get k m) eqn:E.
  - split; [intros _ | done].
    apply get_Some_elem in E. apply list_elem_of_fmap. by eexists (_, _).
  - apply get_None in E. split; [done | tauto].
Qed.

Lemma has_false k m : JsMap.has k m = false ↔ k ∉ m.*1.
Proof. rewrite <- has_true. destruct (JsMap.has k m); split; congruence. Qed.

Lemma delete_filter k m : JsMap.delete k m = filter (λ e, e.1 ≠ k) m.
Proof.
  induction m as [|[k' v'] m IH]; simpl; [done|].
  rewrite filter_cons. simpl. case_decide; subst.
  - rewrite decide_False by tauto. done.
  - rewrite decide_True by done. by f_equal.
Qed.

Lemma elem_of_delete k k' v m : (k', v) ∈ JsMap.delete k m ↔ (k', v) ∈ m ∧ k' ≠ k.
Proof. rewrite delete_filter, list_elem_of_filter. simpl. tauto. Qed.

Lemma delete_sublist k m : JsMap.delete k m `sublist_of` m.
Proof. rewrite delete_filter. apply sublist_filter. Qed.

Lemma delete_absent k m : k ∉ m.*1 → JsMap.delete k m = m.
Proof.
  induction m as [|[k' v'] m IH]; simpl; [done|].
  rewrite not_elem_of_cons. intros [Hne Hk]. simpl in Hne.
  rewrite decide_False by congruence. f_equal. auto.
Qed.

Lemma set_absent k v m : k ∉ m.*1 → JsMap.set k v m = m ++ [(k, v)].
Proof.
  induction m as [|[k' v'] m IH]; simpl; [done|].
  rewrite not_elem_of_cons. intros [Hne Hk]. simpl in Hne.
  rewrite decide_False by congruence. f_equal. auto.
Qed.

Lemma delete_set_absent k v m : k ∉ m.*1 → JsMap.delete k (JsMap.set k v m) = m.
Proof.
  intros Hk. rewrite set_absent by done. rewrite delete_filter, filter_app.
  rewrite <- delete_filter, delete_absent by done.
  rewrite filter_cons. simpl. rewrite decide_False by tauto.
  by rewrite filter_nil, app_nil_r.
Qed.

Lemma delete_gone k m : k ∉ (JsMap.delete k m).*1.
Proof.
  intros ([k' v] & Hk & Hin)%list_elem_of_fmap. simpl in Hk. subst.
  apply elem_of_delete in Hin. tauto.
Qed.

Lemma get_delete_ne k k' m : k ≠ k' → JsMap.get k' (JsMap.delete k m) = JsMap.get k' m.
Proof.
  intros Hne. induction m as [|[k0 v0] m IH]; simpl; [done|].
  case_decide; subst.
  - rewrite decide_False by done. done.
  - simpl. case_decide; [done | auto].
Qed.

End Facts.
End JsMapFacts.

Import JsMapFacts.

(** ** The settlement log *)

Lemma results_of_resolve w w' r s :
  results_of w (resolve w' r s) =
  if decide (w' = w) then results_of w s ++ [r] else results_of w s.
Proof.
  unfold results_of. simpl. rewrite filter_app, fmap_app, filter_cons. simpl.
  case_decide; simpl; [done | by rewrite app_nil_r].
Qed.

Lemma elem_of_results_of w r s : r ∈ results_of w s ↔ (w, r) ∈ settled s.
Proof.
  unfold results_of. rewrite list_elem_of_fmap. split.
  - intros ([w' r'] & -> & [Hw Hin]%list_elem_of_filter). simpl in *. by subst.
  - intros Hin. exists (w, r). split; [done|]. by apply list_elem_of_filter.
Qed.

Lemma reject_all_settled m s :
  settled (reject_all m s) =
  settled s ++ ((λ e : string * waiter, (e.2, extension_disconnected)) <$> m).
Proof.
  unfold reject_all. revert s.
  induction m as [|e m IH]; intros s; simpl; [by rewrite app_nil_r|].
  rewrite IH. simpl. by rewrite <- app_assoc.
Qed.

Lemma reject_all_frame m s :
  extensionSocket (reject_all m s) = extensionSocket s ∧
  pendingRequests (reject_all m s) = pendingRequests s ∧
  clients (reject_all m s) = clients s ∧
  uuid_calls (reject_all m s) = uuid_calls s ∧
  promises (reject_all m s) = promises s ∧
  timers (reject_all m s) = timers s ∧
  clock (reject_all m s) = clock s ∧
  outbox (reject_all m s) = outbox s.
Proof.
  unfold reject_all. revert s.
  induction m as [|e m IH]; intros s; simpl; [done|].
  destruct (IH (resolve e.2 extension_disconnected s)) as (?&?&?&?&?&?&?&?).
  by repeat split.
Qed.

Lemma results_of_reject_all w m s :
  results_of w (reject_all m s) =
  results_of w s ++ replicate (length (filter (λ x, x = w) m.*2)) extension_disconnected.
Proof.
  unfold results_of. rewrite reject_all_settled, filter_app, fmap_app. f_equal.
  induction m as [|[k w'] m IH]; [done|].
  rewrite !fmap_cons, !filter_cons. simpl.
  case_decide; [rewrite fmap_cons|]; simpl; by rewrite IH.
Qed.

Lemma filter_eq_NoDup (w : waiter) (l : list waiter) :
  NoDup l → filter (λ x, x = w) l = if decide (w ∈ l) then [w] else [].
Proof.
  induction 1 as [|x l Hx Hnd IH].
  { rewrite decide_False; [done | apply not_elem_of_nil]. }
  rewrite filter_cons, IH. destruct (decide (x = w)) as [->|Hne].
  - rewrite (decide_False (P := w ∈ l)) by done.
    rewrite decide_True; [done | left].
  - destruct (decide (w ∈ l)) as [Hin|Hin].
    + rewrite decide_True; [done | by right].
    + rewrite decide_False; [done|]. rewrite not_elem_of_cons. split; congruence.
Qed.

Lemma on_close_fields ws s :
  extensionSocket (on_close ws s) = None ∧
  pendingRequests (on_close ws s) = [] ∧
  settled (on_close ws s) =
    settled s ++
    ((λ e : string * waiter, (e.2, extension_disconnected)) <$> pendingRequests s) ∧
  clients (on_close ws s) = clients s ∧
  uuid_calls (on_close ws s) = uuid_calls s ∧
  promises (on_close ws s) = promises s ∧
  timers (on_close ws s) = timers s ∧
  clock (on_close ws s) = clock s ∧
  outbox (on_close ws s) = outbox s.
Proof.
  unfold on_close.
  destruct (reject_all_frame (pendingRequests (with_socket None s))
              (with_socket None s)) as (Hsock & Hp & Hcl & Hu & Hc & Ht & Hn & Ho).
  simpl in *. rewrite reject_all_settled. by repeat split.
Qed.

Lemma results_of_on_close w ws s :
  results_of w (on_close ws s) =
  results_of w s ++
  replicate (length (filter (λ x, x = w) (pendingRequests s).*2))
            extension_disconnected.
Proof. apply (results_of_reject_all w (pendingRequests s) (with_socket None s)). Qed.

Lemma NoDup_snd_key {A B} (m : list (A * B)) k1 k2 v :
  NoDup m.*2 → (k1, v) ∈ m → (k2, v) ∈ m → k1 = k2.
Proof.
  induction m as [|[k0 v0] m IH]; simpl.
  - intros _ H. by apply elem_of_nil in H.
  - rewrite NoDup_cons. intros [Hv0 Hnd] H1 H2.
    apply elem_of_cons in H1 as [[= -> ->] | H1];
      apply elem_of_cons in H2 as [[= ->] | H2].
    + done.
    + exfalso. apply Hv0. apply list_elem_of_fmap. by exists (k2, v0).
    + subst. exfalso. apply Hv0. apply list_elem_of_fmap. by exists (k1, v0).
    + eauto.
Qed.

Lemma NoDup_fst_value {B} (m : list (string * B)) k v1 v2 :
  NoDup m.*1 → (k, v1) ∈ m → (k, v2) ∈ m → v1 = v2.
Proof.
  intros Hnd H1 H2. apply (elem_get _ _ _ Hnd) in H1, H2. congruence.
Qed.

Lemma elem_of_delete_index {A} (l : list A) (i : nat) (x y : A) :
  l !! i = Some y → x ∈ l → x ≠ y → x ∈ delete i l.
Proof.
  revert i. induction l as [|a l IH]; intros [|i]; simpl; try done.
  - intros [= ->] [->|Hin]%elem_of_cons Hne; done.
  - intros Hi [->|Hin]%elem_of_cons Hne; [left | right; eauto].
Qed.

Lemma elem_of_delete_index_inv {A} (l : list A) (i : nat) (x : A) :
  x ∈ delete i l → x ∈ l.
Proof. intros H. eapply elem_of_sublist; [exact H | apply sublist_delete]. Qed.

Lemma invariant_frame uuidv4 s s' :
  pendingRequests s' = pendingRequests s →
  uuid_calls s' = uuid_calls s →
  promises s' = promises s →
  timers s' = timers s →
  settled s' = settled s →
  invariant uuidv4 s → invariant uuidv4 s'.
Proof.
  intros Hp Hu Hc Ht Hs [I1 I2 I3 I4 I5 I6 I7 I8 I9].
  split; unfold results_of in *; rewrite ?Hp, ?Hu, ?Hc, ?Ht, ?Hs; done.
Qed.

Section Correctness.

Variable uuidv4 : nat → string.

Lemma invariant_init : invariant uuidv4 init.
Proof.
  split; simpl; try (intros; exfalso; eapply elem_of_nil; eassumption);
    try apply NoDup_nil_2.
  intros w Hw. lia.
Qed.

(** The generator's contract: no value is drawn twice. *)
Hypothesis uuidv4_unique : ∀ i j, uuidv4 i = uuidv4 j → i = j.

Lemma fresh_key s :
  invariant uuidv4 s → uuidv4 (uuid_calls s) ∉ (pendingRequests s).*1.
Proof.
  intros Hinv ([id w] & Hid & Hin)%list_elem_of_fmap. simpl in Hid. subst id.
  destruct (inv_issued _ _ Hinv _ _ Hin) as (n & Hn & Heq).
  apply uuidv4_unique in Heq. lia.
Qed.

Lemma fresh_timer s t :
  invariant uuidv4 s → t ∈ timers s → timer_id t ≠ uuidv4 (uuid_calls s).
Proof.
  intros Hinv Hin Heq.
  destruct (inv_timer_issued _ _ Hinv _ Hin) as (n & Hn & Hid).
  rewrite Heq in Hid. apply uuidv4_unique in Hid. lia.
Qed.

Lemma fresh_waiter s :
  invariant uuidv4 s → promises s ∉ (pendingRequests s).*2.
Proof.
  intros Hinv ([id w] & Hw & Hin)%list_elem_of_fmap. simpl in Hw. subst w.
  pose proof (inv_created _ _ Hinv _ _ Hin). lia.
Qed.

Lemma unsettled_new s : invariant uuidv4 s → results_of (promises s) s = [].
Proof.
  intros Hinv. destruct (results_of (promises s) s) as [|r l] eqn:E; [done|].
  assert (r ∈ results_of (promises s) s) as Hr by (rewrite E; left).
  apply elem_of_results_of in Hr. pose proof (inv_settled _ _ Hinv _ _ Hr). lia.
Qed.

Lemma executeCommand_invariant c b s :
  invariant uuidv4 s → invariant uuidv4 (executeCommand uuidv4 c b s).2.
Proof.
  intros Hinv.
  pose proof (fresh_key s Hinv) as Hk.
  pose proof (fresh_waiter s Hinv) as Hw.
  pose proof (unsettled_new s Hinv) as Hnew.
  destruct Hinv as [I1 I2 I3 I4 I5 I6 I7 I8 I9].
  unfold executeCommand. simpl.
  destruct (extensionSocket s) as [ws|] eqn:Hsock; [destruct b|]; simpl.
  - (* the send throws *)
    rewrite delete_set_absent by done.
    split; simpl; try done.
    + intros id w Hin. destruct (I3 id w Hin) as (n & ? & ?). exists n. split; [lia|done].
    + intros t [Hin | ->%list_elem_of_singleton]%elem_of_app.
      * destruct (I4 t Hin) as (n & ? & ?). exists n. split; [lia|done].
      * exists (uuid_calls s). simpl. split; [lia|done].
    + intros t id w [Hin | ->%list_elem_of_singleton]%elem_of_app Hp Hid.
      * eauto.
      * simpl in Hid. subst id. exfalso. apply Hk.
        apply list_elem_of_fmap. by exists (uuidv4 (uuid_calls s), w).
    + intros id w Hin. destruct (I6 id w Hin) as (t & ? & ? & ?).
      exists t. split; [apply elem_of_app; by left | done].
    + intros id w Hin. pose proof (I7 id w Hin). lia.
    + intros w r [Hin | [= -> ->]%list_elem_of_singleton]%elem_of_app.
      * pose proof (I8 w r Hin). lia.
      * lia.
    + intros w Hlt. unfold results_of in *. simpl.
      rewrite filter_app, fmap_app, filter_cons. simpl. case_decide as Hd.
      * subst w. right. rewrite Hnew. done.
      * simpl. rewrite app_nil_r. apply I9. lia.
  - (* the message is sent *)
    rewrite set_absent by done.
    split; simpl.
    + rewrite fmap_app. apply NoDup_app. split; [done|]. split.
      * intros x Hx ->%list_elem_of_singleton. done.
      * apply NoDup_singleton.
    + rewrite fmap_app. apply NoDup_app. split; [done|]. split.
      * intros x Hx ->%list_elem_of_singleton. done.
      * apply NoDup_singleton.
    + intros id w [Hin | [= -> ->]%list_elem_of_singleton]%elem_of_app.
      * destruct (I3 id w Hin) as (n & ? & ?). exists n. split; [lia|done].
      * exists (uuid_calls s). split; [lia|done].
    + intros t [Hin | ->%list_elem_of_singleton]%elem_of_app.
      * destruct (I4 t Hin) as (n & ? & ?). exists n. split; [lia|done].
      * exists (uuid_calls s). simpl. split; [lia|done].
    + intros t id w [Hin | ->%list_elem_of_singleton]%elem_of_app
        [Hp | [= -> ->]%list_elem_of_singleton]%elem_of_app Hid; simpl in *.
      * eauto.
      * exfalso. destruct (I4 t Hin) as (n & Hn & Ht).
        rewrite Hid in Ht. apply uuidv4_unique in Ht. lia.
      * subst id. exfalso. apply Hk.
        apply list_elem_of_fmap. by exists (uuidv4 (uuid_calls s), w).
      * done.
    + intros id w [Hin | [= -> ->]%list_elem_of_singleton]%elem_of_app.
      * destruct (I6 id w Hin) as (t & ? & ? & ?).
        exists t. split; [apply elem_of_app; by left | done].
      * eexists. split; [apply elem_of_app; right; apply list_elem_of_singleton; done|done].
    + intros id w [Hin | [= -> ->]%list_elem_of_singleton]%elem_of_app.
      * pose proof (I7 id w Hin). lia.
      * lia.
    + intros w r Hin. pose proof (I8 w r Hin). lia.
    + intros w Hlt. unfold results_of in *. simpl.
      rewrite fmap_app. simpl. rewrite elem_of_app, list_elem_of_singleton.
      destruct (decide (w = promises s)) as [->|Hne].
      * left. split; [done | by right].
      * destruct (I9 w) as [[? ?]|[? ?]]; [lia | left | right]; tauto.
  - (* no extension *)
    split; simpl; try done.
    + intros id w Hin. pose proof (I7 id w Hin). lia.
    + intros w r [Hin | [= -> ->]%list_elem_of_singleton]%elem_of_app.
      * pose proof (I8 w r Hin). lia.
      * lia.
    + intros w Hlt. unfold results_of in *. simpl.
      rewrite filter_app, fmap_app, filter_cons. simpl. case_decide as Hd.
      * subst w. right. rewrite Hnew. done.
      * simpl. rewrite app_nil_r. apply I9. lia.
Qed.

Lemma disarm_invariant s l :
  (∀ t, t ∈ l → t ∈ timers s) →
  (∀ t, t ∈ timers s → timer_id t ∈ (pendingRequests s).*1 → t ∈ l) →
  invariant uuidv4 s → invariant uuidv4 (with_timers l s).
Proof.
  intros Hsub Hkeep [I1 I2 I3 I4 I5 I6 I7 I8 I9].
  split; simpl; try done.
  - auto.
  - eauto.
  - intros id w Hin. destruct (I6 id w Hin) as (t & Ht & Hid & Hw).
    exists t. split; [|done]. apply Hkeep; [done|].
    apply list_elem_of_fmap. exists (id, w). by rewrite Hid.
Qed.

Lemma settle_invariant s k w r :
  (k, w) ∈ pendingRequests s →
  invariant uuidv4 s →
  invariant uuidv4
    (resolve w r (with_pending (JsMap.delete k (pendingRequests s)) s)).
Proof.
  intros Hkw [I1 I2 I3 I4 I5 I6 I7 I8 I9].
  split; simpl.
  - eapply sublist_NoDup; [exact I1|]. apply fmap_sublist, delete_sublist.
  - eapply sublist_NoDup; [exact I2|]. apply fmap_sublist, delete_sublist.
  - intros id w' [Hin _]%elem_of_delete. eauto.
  - done.
  - intros t id w' Ht [Hin _]%elem_of_delete. eauto.
  - intros id w' [Hin _]%elem_of_delete. eauto.
  - intros id w' [Hin _]%elem_of_delete. eauto.
  - intros w' r' [Hin | [= -> ->]%list_elem_of_singleton]%elem_of_app; eauto.
  - intros w' Hlt. unfold results_of in *. simpl.
    rewrite filter_app, fmap_app, filter_cons. simpl.
    assert (w ∈ (pendingRequests s).*2) as Hwin.
    { apply list_elem_of_fmap. by exists (k, w). }
    case_decide as Hd.
    + subst w'. right. destruct (I9 w Hlt) as [[-> _]|[_ ?]]; [|done].
      split; [done|].
      intros ([k' w'] & Hw' & [Hin Hne]%elem_of_delete)%list_elem_of_fmap.
      simpl in Hw'. subst w'. apply Hne. eapply NoDup_snd_key; eauto.
    + simpl. rewrite app_nil_r.
      destruct (I9 w' Hlt) as [[Hres Hin]|[Hres Hout]]; [left | right];
        (split; [done|]).
      * apply list_elem_of_fmap in Hin as ([k' w''] & Hw'' & Hin).
        simpl in Hw''. subst w''. apply list_elem_of_fmap. exists (k', w').
        split; [done|]. apply elem_of_delete. split; [done|].
        intros ->. apply Hd. eapply NoDup_fst_value; eauto.
      * intros Hin. apply Hout.
        eapply elem_of_sublist; [exact Hin|]. apply fmap_sublist, delete_sublist.
Qed.

Lemma on_close_invariant ws s :
  invariant uuidv4 s → invariant uuidv4 (on_close ws s).
Proof.
  intros [I1 I2 I3 I4 I5 I6 I7 I8 I9].
  destruct (on_close_fields ws s) as (Hsock & Hp & Hs & Hcl & Hu & Hc & Ht & Hn & Ho).
  split; rewrite ?Hp, ?Hu, ?Hc, ?Ht, ?Hs;
    try (intros; exfalso; eapply elem_of_nil; eassumption);
    try apply NoDup_nil_2; try done.
  - intros w r.
    intros [Hin | ([k w'] & [= -> ->] & Hin)%list_elem_of_fmap]%elem_of_app; eauto.
  - intros w Hlt. rewrite results_of_on_close.
    rewrite (filter_eq_NoDup _ _ I2).
    right. split; [|apply not_elem_of_nil].
    destruct (I9 w Hlt) as [[-> Hin]|[Hres Hout]].
    + by rewrite decide_True.
    + rewrite decide_False by done. simpl. by rewrite app_nil_r.
Qed.

Lemma timeout_callback_invariant s k t :
  timers s !! k = Some t →
  invariant uuidv4 s →
  invariant uuidv4
    (timeout_callback (timer_id t) (timer_resolve t)
       (with_timers (delete k (timers s)) s)).
Proof.
  intros Hk Hinv. unfold timeout_callback. simpl.
  assert (t ∈ timers s) as Ht by (eapply list_elem_of_lookup_2; eauto).
  destruct (JsMap.has (timer_id t) (pendingRequests s)) eqn:Hhas.
  - apply has_true in Hhas as ([id w] & Hid & Hin)%list_elem_of_fmap.
    simpl in Hid. subst id.
    rewrite <- (inv_pairing _ _ Hinv t _ w Ht Hin eq_refl) in Hin.
    apply (disarm_invariant
             (resolve (timer_resolve t) request_timeout
                (with_pending (JsMap.delete (timer_id t) (pendingRequests s)) s))).
    + apply elem_of_delete_index_inv.
    + simpl. intros t' Ht' Hkey. eapply elem_of_delete_index; eauto.
      intros ->. by apply delete_gone in Hkey.
    + by apply settle_invariant.
  - apply has_false in Hhas. apply disarm_invariant; [| | done].
    + apply elem_of_delete_index_inv.
    + intros t' Ht' Hkey. eapply elem_of_delete_index; eauto.
      intros ->. done.
Qed.

Lemma handleExtensionMessage_invariant message s s' :
  handleExtensionMessage message s = Normal s' →
  invariant uuidv4 s → invariant uuidv4 s'.
Proof.
  unfold handleExtensionMessage, lookup_key.
  destruct (destructure_id message) as [[[| | |k| |]|]|]; try by intros [= <-].
  destruct (JsMap.get k (pendingRequests s)) as [w|] eqn:Hget;
    intros [= <-]; [|done].
  apply settle_invariant. by apply get_Some_elem.
Qed.

Lemma on_message_invariant parsed s :
  invariant uuidv4 s → invariant uuidv4 (on_message parsed s).
Proof.
  intros Hinv. unfold on_message. destruct parsed as [message|]; [|done].
  destruct (handleExtensionMessage message s) eqn:E; [|done].
  eapply handleExtensionMessage_invariant; eauto.
Qed.

Lemma step_invariant e s s' :
  step uuidv4 e s = Some s' → invariant uuidv4 s → invariant uuidv4 s'.
Proof.
  destruct e as [c b|ws|ws parsed|ws|k|dt]; simpl.
  - intros [= <-]. apply executeCommand_invariant.
  - case_decide; [done|]. intros [= <-]. by apply invariant_frame.
  - case_decide; [|done]. intros [= <-]. apply on_message_invariant.
  - case_decide; [|done]. intros [= <-] Hinv. apply on_close_invariant.
    revert Hinv. by apply invariant_frame.
  - destruct (timers s !! k) as [t|] eqn:Hk; [|done].
    case_decide; [|done]. intros [= <-]. by apply timeout_callback_invariant.
  - intros [= <-]. by apply invariant_frame.
Qed.

Lemma run_invariant tr s s' :
  run uuidv4 tr s = Some s' → invariant uuidv4 s → invariant uuidv4 s'.
Proof.
  revert s. induction tr as [|e tr IH]; intros s; simpl.
  - by intros [= <-].
  - destruct (step uuidv4 e s) as [s1|] eqn:E; [|done].
    intros Hrun Hinv. eapply IH; [done|]. eapply step_invariant; eauto.
Qed.

Lemma reachable_invariant s : reachable uuidv4 s → invariant uuidv4 s.
Proof. intros [tr Hrun]. eapply run_invariant; [done | apply invariant_init]. Qed.

(** ** Where results come from *)

Lemma timeout_callback_frame id w s :
  extensionSocket (timeout_callback id w s) = extensionSocket s ∧
  clients (timeout_callback id w s) = clients s ∧
  uuid_calls (timeout_callback id w s) = uuid_calls s ∧
  promises (timeout_callback id w s) = promises s ∧
  timers (timeout_callback id w s) = timers s ∧
  clock (timeout_callback id w s) = clock s ∧
  outbox (timeout_callback id w s) = outbox s.
Proof.
  unfold timeout_callback. by destruct (JsMap.has id (pendingRequests s)).
Qed.

Lemma handleExtensionMessage_cases message s :
  (message = JNull ∧ handleExtensionMessage message s = Throw "TypeError") ∨
  handleExtensionMessage message s = Normal s ∨
  ∃ k w, destructure_id message = Normal (Some (JStr k)) ∧
         JsMap.get k (pendingRequests s) = Some w ∧
         handleExtensionMessage message s =
           Normal (resolve w message
                     (with_pending (JsMap.delete k (pendingRequests s)) s)).
Proof.
  unfold handleExtensionMessage, lookup_key.
  destruct message as [| | | | |fields]; simpl; auto.
  destruct (fields !! "id") as [[| | |k| |]|]; auto.
  destruct (JsMap.get k (pendingRequests s)) as [w|] eqn:E; eauto 10.
Qed.

Lemma step_settled e s s' w r :
  step uuidv4 e s = Some s' → (w, r) ∈ settled s' →
  (w, r) ∈ settled s ∨
  (w = promises s ∧ ∃ c b, e = Post c b ∧
     ((extensionSocket s = None ∧ r = not_connected) ∨
      (extensionSocket s ≠ None ∧ b = true ∧ r = send_failed))) ∨
  r = request_timeout ∨ r = extension_disconnected ∨
  (∃ ws, e = WsMessage ws (Some r)).
Proof.
  destruct e as [c b|ws|ws parsed|ws|k|dt]; simpl.
  - intros [= <-]. unfold executeCommand. simpl.
    destruct (extensionSocket s) as [ws|] eqn:Hsock; [destruct b|]; simpl.
    + intros [?|[= -> ->]%list_elem_of_singleton]%elem_of_app; [by left|].
      right; left. split; [done|]. exists c, true. split; [done|]. right. done.
    + by left.
    + intros [?|[= -> ->]%list_elem_of_singleton]%elem_of_app; [by left|].
      right; left. split; [done|]. exists c, b. split; [done|]. by left.
  - case_decide; [done|]. intros [= <-]. by left.
  - case_decide; [|done]. intros [= <-]. unfold on_message.
    destruct parsed as [message|]; [|by left].
    destruct (handleExtensionMessage_cases message s)
      as [[_ ->]|[->|(k & w' & _ & _ & ->)]]; try by left.
    simpl. intros [?|[= -> ->]%list_elem_of_singleton]%elem_of_app; [by left|].
    do 4 right. by exists ws.
  - case_decide; [|done]. intros [= <-].
    destruct (on_close_fields ws (with_clients (filter (λ c, c ≠ ws) (clients s)) s))
      as (_ & _ & -> & _).
    simpl.
    intros [?|([k w'] & [= -> ->] & _)%list_elem_of_fmap]%elem_of_app; auto.
  - destruct (timers s !! k) as [t|]; [|done].
    case_decide; [|done]. intros [= <-]. unfold timeout_callback. simpl.
    destruct (JsMap.has (timer_id t) (pendingRequests s)); simpl; [|by left].
    intros [?|[= -> ->]%list_elem_of_singleton]%elem_of_app; auto.
  - intros [= <-]. by left.
Qed.

Lemma step_promises e s s' :
  step uuidv4 e s = Some s' → promises s ≤ promises s'.
Proof.
  destruct e as [c b|ws|ws parsed|ws|k|dt]; simpl.
  - intros [= <-]. unfold executeCommand. simpl.
    destruct (extensionSocket s); [destruct b|]; simpl; lia.
  - case_decide; [done|]. by intros [= <-].
  - case_decide; [|done]. intros [= <-]. unfold on_message.
    destruct parsed as [message|]; [|done].
    destruct (handleExtensionMessage_cases message s)
      as [[_ ->]|[->|(k & w' & _ & _ & ->)]]; done.
  - case_decide; [|done]. intros [= <-].
    destruct (on_close_fields ws (with_clients (filter (λ c, c ≠ ws) (clients s)) s))
      as (_ & _ & _ & _ & _ & -> & _). done.
  - destruct (timers s !! k) as [t|]; [|done].
    case_decide; [|done]. intros [= <-].
    destruct (timeout_callback_frame (timer_id t) (timer_resolve t)
                (with_timers (delete k (timers s)) s)) as (_ & _ & _ & -> & _).
    done.
  - by intros [= <-].
Qed.

Lemma run_promises tr s s' :
  run uuidv4 tr s = Some s' → promises s ≤ promises s'.
Proof.
  revert s. induction tr as [|e tr IH]; intros s; simpl.
  - by intros [= <-].
  - destruct (step uuidv4 e s) as [s1|] eqn:E; [|done].
    intros Hrun. apply step_promises in E. apply IH in Hrun. lia.
Qed.

(** A Promise that already exists can only be settled by a message of the
    extension, by its timer or by a close event. *)
Lemma run_settled_existing tr s s' w r :
  run uuidv4 tr s = Some s' → w < promises s → (w, r) ∈ settled s' →
  (w, r) ∈ settled s ∨ r = request_timeout ∨ r = extension_disconnected ∨
  (∃ ws, WsMessage ws (Some r) ∈ tr).
Proof.
  revert s. induction tr as [|e tr IH]; intros s; simpl.
  - intros [= <-]. auto.
  - destruct (step uuidv4 e s) as [s1|] eqn:E; [|done].
    intros Hrun Hw Hin. pose proof (step_promises _ _ _ E) as Hmono.
    destruct (IH s1 Hrun ltac:(lia) Hin) as [Hin1|[?|[?|[ws ?]]]]; auto.
    + destruct (step_settled _ _ _ _ _ E Hin1)
        as [?|[[-> _]|[?|[?|[ws ->]]]]]; auto; [lia|].
      do 3 right. exists ws. left.
    + do 3 right. exists ws. by right.
Qed.

Lemma run_explained tr s s' w r :
  run uuidv4 tr s = Some s' → (w, r) ∈ settled s' →
  (w, r) ∈ settled s ∨ explained tr r.
Proof.
  unfold explained, server_made.
  revert s. induction tr as [|e tr IH]; intros s; simpl.
  - intros [= <-]. auto.
  - destruct (step uuidv4 e s) as [s1|] eqn:E; [|done].
    intros Hrun Hin.
    destruct (IH s1 Hrun Hin) as [Hin1|[?|[ws ?]]]; [|by auto|].
    + destruct (step_settled _ _ _ _ _ E Hin1)
        as [?|[(_ & c & b & _ & [[_ ->]|(_ & _ & ->)])|[->|[->|[ws ->]]]]];
        auto 6.
      right; right. exists ws. left.
    + right; right. exists ws. by right.
Qed.

(** ** Timers do run *)

Lemma run_app tr1 tr2 s :
  run uuidv4 (tr1 ++ tr2) s =
  match run uuidv4 tr1 s with Some s1 => run uuidv4 tr2 s1 | None => None end.
Proof.
  revert s. induction tr1 as [|e tr1 IH]; intros s; simpl; [done|].
  destruct (step uuidv4 e s); [apply IH | done].
Qed.

Lemma latest_due_bound l t : t ∈ l → (due t ≤ latest_due l)%N.
Proof.
  induction l as [|a l IH]; simpl.
  - intros H. by apply elem_of_nil in H.
  - intros [->|Hin]%elem_of_cons; [lia|]. apply IH in Hin. lia.
Qed.

Lemma fire_all n s :
  length (timers s) = n →
  (∀ t, t ∈ timers s → (due t ≤ clock s)%N) →
  ∃ s', run uuidv4 (replicate n (TimerFires 0)) s = Some s' ∧
        timers s' = [] ∧ promises s' = promises s.
Proof.
  revert s. induction n as [|n IH]; intros s Hlen Hdue.
  - exists s. by apply nil_length_inv in Hlen.
  - destruct (timers s) as [|t l] eqn:Ht; [done|].
    simpl. rewrite Ht. simpl.
    rewrite decide_True by (apply Hdue; left).
    destruct (timeout_callback_frame (timer_id t) (timer_resolve t)
                (with_timers l s)) as (_ & _ & _ & Hp & Htm & Hc & _).
    simpl in *.
    destruct (IH (timeout_callback (timer_id t) (timer_resolve t) (with_timers l s)))
      as (s' & Hrun & Hnil & Hprom).
    + rewrite Htm. simpl in Hlen. lia.
    + rewrite Htm, Hc. intros t' Ht'. apply Hdue. by right.
    + exists s'. rewrite Hprom, Hp. done.
Qed.

Lemma flush_runs s :
  ∃ s', run uuidv4 (flush s) s = Some s' ∧ timers s' = [] ∧
        promises s' = promises s.
Proof.
  unfold flush. simpl.
  apply (fire_all _ (with_clock (clock s + latest_due (timers s)) s)); [done|].
  simpl. intros t Ht. apply latest_due_bound in Ht. lia.
Qed.

(** ** One result per request *)

Lemma at_most_one s w :
  invariant uuidv4 s → w < promises s → length (results_of w s) ≤ 1.
Proof.
  intros Hinv Hw. destruct (inv_once _ _ Hinv w Hw) as [[-> _]|[-> _]]; simpl; lia.
Qed.

Lemma unsettled_is_pending s w :
  invariant uuidv4 s → w < promises s → results_of w s = [] →
  ∃ id t, JsMap.get id (pendingRequests s) = Some w ∧
          t ∈ timers s ∧ timer_id t = id ∧ timer_resolve t = w.
Proof.
  intros Hinv Hw Hnone.
  destruct (inv_once _ _ Hinv w Hw) as [[_ Hin]|[Hlen _]].
  - apply list_elem_of_fmap in Hin as ([id w'] & Hw' & Hin). simpl in Hw'. subst w'.
    destruct (inv_armed _ _ Hinv id w Hin) as (t & Ht & Hid & Hres).
    exists id, t. split; [|done]. apply elem_get; [apply Hinv | done].
  - rewrite Hnone in Hlen. done.
Qed.

Lemma disarmed_is_settled s w :
  invariant uuidv4 s → w < promises s → ¬ armed w s →
  length (results_of w s) = 1.
Proof.
  intros Hinv Hw Hno.
  destruct (inv_once _ _ Hinv w Hw) as [[Hnone _]|[Hlen _]]; [|done].
  destruct (unsettled_is_pending s w Hinv Hw Hnone) as (id & t & _ & Ht & _ & Hres).
  exfalso. apply Hno. by exists t.
Qed.

(** C1: in every run of the server, whatever the order of requests,
    replies, timers, connections and close events, each Promise made by
    [executeCommand] has its [resolve] called at most once; every result
    is a message of the extension passed on or one of the four failures
    the server builds (not connected, send failed, timeout, disconnected);
    a Promise without a result is still in the table with its timer armed;
    once its timer is no longer armed it has exactly one result; and
    letting the armed timers run always leads to such a state. *)
Theorem exactly_one_terminal_result tr s w :
  run uuidv4 tr init = Some s → w < promises s →
  length (results_of w s) ≤ 1 ∧
  (∀ r, r ∈ results_of w s → explained tr r) ∧
  (results_of w s = [] →
     ∃ id t, JsMap.get id (pendingRequests s) = Some w ∧
             t ∈ timers s ∧ timer_id t = id ∧ timer_resolve t = w) ∧
  (¬ armed w s → length (results_of w s) = 1) ∧
  (∃ s', run uuidv4 (tr ++ flush s) init = Some s' ∧ timers s' = [] ∧
         length (results_of w s') = 1).
Proof.
  intros Hrun Hw.
  assert (invariant uuidv4 s) as Hinv by (apply reachable_invariant; by exists tr).
  split; [by apply at_most_one|].
  split.
  { intros r Hr%elem_of_results_of.
    destruct (run_explained _ _ _ _ _ Hrun Hr) as [Hin|?]; [|done].
    by apply elem_of_nil in Hin. }
  split; [by apply unsettled_is_pending|].
  split; [by apply disarmed_is_settled|].
  destruct (flush_runs s) as (s' & Hflush & Hnil & Hprom).
  exists s'. rewrite run_app, Hrun. split; [done|]. split; [done|].
  apply disarmed_is_settled.
  - apply reachable_invariant. exists (tr ++ flush s). by rewrite run_app, Hrun.
  - lia.
  - intros (t & Ht & _). rewrite Hnil in Ht. by apply elem_of_nil in Ht.
Qed.

(** ** What one call of [executeCommand] does *)

Lemma executeCommand_connected c b ws s :
  extensionSocket s = Some ws →
  let id := uuidv4 (uuid_calls s) in
  let w := promises s in
  let s' := (executeCommand uuidv4 c b s).2 in
  (executeCommand uuidv4 c b s).1 = w ∧
  extensionSocket s' = Some ws ∧ clients s' = clients s ∧ clock s' = clock s ∧
  uuid_calls s' = S (uuid_calls s) ∧ promises s' = S (promises s) ∧
  timers s' = timers s ++ [mkTimer (clock s + 30000) id w] ∧
  pendingRequests s' =
    (if b then JsMap.delete id (JsMap.set id w (pendingRequests s))
     else JsMap.set id w (pendingRequests s)) ∧
  settled s' = (if b then settled s ++ [(w, send_failed)] else settled s) ∧
  outbox s' = (if b then outbox s else outbox s ++ [(ws, spread_after_id id c)]).
Proof.
  intros Hsock. unfold executeCommand. simpl. rewrite Hsock.
  destruct b; simpl; by repeat split.
Qed.

Lemma executeCommand_absent c b s :
  extensionSocket s = None →
  executeCommand uuidv4 c b s =
  (promises s, resolve (promises s) not_connected (new_promise s).2).
Proof. intros Hsock. unfold executeCommand. simpl. by rewrite Hsock. Qed.

Lemma pending_unsettled s id w :
  invariant uuidv4 s → (id, w) ∈ pendingRequests s → results_of w s = [].
Proof.
  intros Hinv Hin.
  destruct (inv_once _ _ Hinv w (inv_created _ _ Hinv _ _ Hin)) as [[? _]|[_ Hout]];
    [done|].
  exfalso. apply Hout. apply list_elem_of_fmap. by exists (id, w).
Qed.

Lemma step_uuid_calls e s s' :
  step uuidv4 e s = Some s' → uuid_calls s ≤ uuid_calls s'.
Proof.
  destruct e as [c b|ws|ws parsed|ws|k|dt]; simpl.
  - intros [= <-]. unfold executeCommand. simpl.
    destruct (extensionSocket s); [destruct b|]; simpl; lia.
  - case_decide; [done|]. by intros [= <-].
  - case_decide; [|done]. intros [= <-]. unfold on_message.
    destruct parsed as [message|]; [|done].
    destruct (handleExtensionMessage_cases message s)
      as [[_ ->]|[->|(k & w' & _ & _ & ->)]]; done.
  - case_decide; [|done]. intros [= <-].
    destruct (on_close_fields ws (with_clients (filter (λ c, c ≠ ws) (clients s)) s))
      as (_ & _ & _ & _ & -> & _). done.
  - destruct (timers s !! k) as [t|]; [|done].
    case_decide; [|done]. intros [= <-].
    destruct (timeout_callback_frame (timer_id t) (timer_resolve t)
                (with_timers (delete k (timers s)) s)) as (_ & _ & -> & _).
    done.
  - by intros [= <-].
Qed.

Lemma run_uuid_calls tr s s' :
  run uuidv4 tr s = Some s' → uuid_calls s ≤ uuid_calls s'.
Proof.
  revert s. induction tr as [|e tr IH]; intros s; simpl.
  - by intros [= <-].
  - destruct (step uuidv4 e s) as [s1|] eqn:E; [|done].
    intros Hrun. apply step_uuid_calls in E. apply IH in Hrun. lia.
Qed.

(** ** Replies *)

Lemma reply_resolves_its_waiter s fields A wA :
  invariant uuidv4 s →
  fields !! "id" = Some (JStr A) →
  JsMap.get A (pendingRequests s) = Some wA →
  ∃ s', handleExtensionMessage (JObj fields) s = Normal s' ∧
        invariant uuidv4 s' ∧
        settled s' = settled s ++ [(wA, JObj fields)] ∧
        pendingRequests s' = JsMap.delete A (pendingRequests s) ∧
        results_of wA s' = [JObj fields] ∧
        (∀ w, w ≠ wA → results_of w s' = results_of w s) ∧
        JsMap.get A (pendingRequests s') = None ∧
        (∀ B, B ≠ A →
           JsMap.get B (pendingRequests s') = JsMap.get B (pendingRequests s)).
Proof.
  intros Hinv Hid Hget.
  pose proof (get_Some_elem _ _ _ Hget) as Hin.
  eexists. split.
  { unfold handleExtensionMessage, lookup_key. simpl. rewrite Hid, Hget. done. }
  split; [by apply settle_invariant|].
  split; [done|]. split; [done|].
  split.
  { rewrite results_of_resolve, decide_True by done.
    change (results_of wA (with_pending _ s)) with (results_of wA s).
    by rewrite (pending_unsettled s A wA). }
  split.
  { intros w Hne. rewrite results_of_resolve, decide_False by done. done. }
  simpl. split.
  - apply get_None, delete_gone.
  - intros B Hne. by apply get_delete_ne.
Qed.

Lemma delete_comm {V} k1 k2 (m : list (string * V)) :
  JsMap.delete k1 (JsMap.delete k2 m) = JsMap.delete k2 (JsMap.delete k1 m).
Proof.
  induction m as [|[k v] m IH]; simpl; [done|].
  destruct (decide (k = k2)), (decide (k = k1)); simpl;
    rewrite ?decide_True by done; rewrite ?decide_False by done;
    by rewrite ?IH.
Qed.

Lemma get_set_eq {V} k (v : V) m : JsMap.get k (JsMap.set k v m) = Some v.
Proof.
  induction m as [|[k' v'] m IH]; simpl.
  - by rewrite decide_True.
  - case_decide as Hk; simpl; [by rewrite decide_True | by rewrite decide_False].
Qed.

(** C2: (1) two calls of [executeCommand] made while an extension is
    connected register their waiters (and arm their timers) under distinct
    identifiers, however far apart in the run they are; (2) a reply
    carrying identifier A settles the waiter registered under A with that
    reply, no other waiter, and leaves every other entry of the table in
    place; (3) with replies for A and B both outstanding, handling them in
    either order gives each waiter its own reply. *)
Theorem identifiers_distinct_and_matched_by_id tr s :
  run uuidv4 tr init = Some s →
  (∀ ws1 c1 b1 tr' s2 ws2 c2 b2,
     extensionSocket s = Some ws1 →
     run uuidv4 tr' (executeCommand uuidv4 c1 b1 s).2 = Some s2 →
     extensionSocket s2 = Some ws2 →
     ∃ id1 id2,
       id1 ≠ id2 ∧
       last (timers (executeCommand uuidv4 c1 b1 s).2)
         = Some (mkTimer (clock s + 30000) id1 (promises s)) ∧
       last (timers (executeCommand uuidv4 c2 b2 s2).2)
         = Some (mkTimer (clock s2 + 30000) id2 (promises s2)) ∧
       (b1 = false →
        JsMap.get id1 (pendingRequests (executeCommand uuidv4 c1 b1 s).2)
          = Some (promises s)) ∧
       (b2 = false →
        JsMap.get id2 (pendingRequests (executeCommand uuidv4 c2 b2 s2).2)
          = Some (promises s2))) ∧
  (∀ fa A wA,
     fa !! "id" = Some (JStr A) →
     JsMap.get A (pendingRequests s) = Some wA →
     ∃ s', handleExtensionMessage (JObj fa) s = Normal s' ∧
           results_of wA s' = [JObj fa] ∧
           (∀ w, w ≠ wA → results_of w s' = results_of w s) ∧
           (∀ B, B ≠ A →
              JsMap.get B (pendingRequests s') = JsMap.get B (pendingRequests s))) ∧
  (∀ fa fb A B wA wB,
     A ≠ B →
     fa !! "id" = Some (JStr A) → fb !! "id" = Some (JStr B) →
     JsMap.get A (pendingRequests s) = Some wA →
     JsMap.get B (pendingRequests s) = Some wB →
     wA ≠ wB ∧
     ∃ sb sba sa sab,
       handleExtensionMessage (JObj fb) s = Normal sb ∧
       handleExtensionMessage (JObj fa) sb = Normal sba ∧
       handleExtensionMessage (JObj fa) s = Normal sa ∧
       handleExtensionMessage (JObj fb) sa = Normal sab ∧
       results_of wA sba = [JObj fa] ∧ results_of wB sba = [JObj fb] ∧
       (∀ w, results_of w sba = results_of w sab) ∧
       pendingRequests sba = pendingRequests sab).
Proof.
  intros Hrun.
  assert (invariant uuidv4 s) as Hinv by (apply reachable_invariant; by exists tr).
  split; [|split].
  - intros ws1 c1 b1 tr' s2 ws2 c2 b2 Hs1 Hrun' Hs2.
    destruct (executeCommand_connected c1 b1 ws1 s Hs1)
      as (_ & _ & _ & _ & Hu1 & _ & Ht1 & Hp1 & _).
    destruct (executeCommand_connected c2 b2 ws2 s2 Hs2)
      as (_ & _ & _ & _ & _ & _ & Ht2 & Hp2 & _).
    exists (uuidv4 (uuid_calls s)), (uuidv4 (uuid_calls s2)).
    split.
    { intros Heq%uuidv4_unique. apply run_uuid_calls in Hrun'. lia. }
    rewrite Ht1, Ht2, !last_snoc, Hp1, Hp2.
    repeat split; intros ->; apply get_set_eq.
  - intros fa A wA Hid Hget.
    destruct (reply_resolves_its_waiter s fa A wA Hinv Hid Hget)
      as (s' & Hh & _ & _ & _ & Hres & Hothers & _ & Hkeys).
    by exists s'.
  - intros fa fb A B wA wB Hne Ha Hb HgetA HgetB.
    assert (wA ≠ wB) as Hw.
    { intros ->. apply Hne.
      eapply (NoDup_snd_key (pendingRequests s)); eauto using inv_waiters, get_Some_elem. }
    split; [done|].
    destruct (reply_resolves_its_waiter s fb B wB Hinv Hb HgetB)
      as (sb & Hhb & Hinvb & Hsetb & Hpb & Hresb & Hothb & _ & Hkeysb).
    destruct (reply_resolves_its_waiter s fa A wA Hinv Ha HgetA)
      as (sa & Hha & Hinva & Hseta & Hpa & Hresa & Hotha & _ & Hkeysa).
    destruct (reply_resolves_its_waiter sb fa A wA Hinvb Ha)
      as (sba & Hhba & _ & Hsetba & Hpba & Hresba & Hothba & _).
    { by rewrite Hkeysb. }
    destruct (reply_resolves_its_waiter sa fb B wB Hinva Hb)
      as (sab & Hhab & _ & Hsetab & Hpab & Hresab & Hothab & _).
    { by rewrite Hkeysa. }
    exists sb, sba, sa, sab. repeat split; try done.
    + by rewrite Hothba.
    + intros w. destruct (decide (w = wA)) as [->|HwA].
      * by rewrite Hresba, Hothab, Hresa.
      * rewrite Hothba by done. destruct (decide (w = wB)) as [->|HwB].
        -- by rewrite Hresb, Hresab.
        -- by rewrite Hothb, Hothab, Hotha.
    + rewrite Hpba, Hpb, Hpab, Hpa. apply delete_comm.
Qed.

(** ** Late replies and late timers *)

Lemma stale_reply s fields k :
  fields !! "id" = Some (JStr k) → k ∉ (pendingRequests s).*1 →
  handleExtensionMessage (JObj fields) s = Normal s.
Proof.
  intros Hid Hk%get_None.
  unfold handleExtensionMessage, lookup_key. simpl. by rewrite Hid, Hk.
Qed.

Lemma stale_timer s k w :
  k ∉ (pendingRequests s).*1 → timeout_callback k w s = s.
Proof. intros Hk%has_false. unfold timeout_callback. by rewrite Hk. Qed.

Lemma timeout_callback_gone s k w :
  k ∉ (pendingRequests (timeout_callback k w s)).*1.
Proof.
  unfold timeout_callback.
  destruct (JsMap.has k (pendingRequests s)) eqn:E.
  - simpl. apply delete_gone.
  - by apply has_false.
Qed.

Lemma reply_gone s s' fields k :
  fields !! "id" = Some (JStr k) →
  handleExtensionMessage (JObj fields) s = Normal s' →
  k ∉ (pendingRequests s').*1.
Proof.
  intros Hid. unfold handleExtensionMessage, lookup_key. simpl. rewrite Hid.
  destruct (JsMap.get k (pendingRequests s)) as [w|] eqn:E; intros [= <-].
  - simpl. apply delete_gone.
  - by apply get_None.
Qed.

Lemma elem_of_set_keys {V} k k' (v : V) m :
  k' ∈ (JsMap.set k v m).*1 → k' = k ∨ k' ∈ m.*1.
Proof.
  induction m as [|[k0 v0] m IH]; simpl.
  - intros ->%list_elem_of_singleton. by left.
  - case_decide; simpl; rewrite !elem_of_cons; [tauto|].
    intros [->|Hin]; [tauto|]. apply IH in Hin. tauto.
Qed.

Lemma step_keys e s s' k :
  step uuidv4 e s = Some s' → k ∈ (pendingRequests s').*1 →
  k ∈ (pendingRequests s).*1 ∨ k = uuidv4 (uuid_calls s).
Proof.
  assert (∀ k0 m, k ∈ (JsMap.delete k0 m : list (string * waiter)).*1 → k ∈ m.*1)
    as Hdel.
  { intros k0 m Hin. eapply elem_of_sublist; [exact Hin|].
    apply fmap_sublist, delete_sublist. }
  destruct e as [c b|ws|ws parsed|ws|i|dt]; simpl.
  - intros [= <-]. unfold executeCommand. simpl.
    destruct (extensionSocket s); [destruct b|]; simpl; auto.
    + intros Hin%Hdel%elem_of_set_keys. tauto.
    + intros Hin%elem_of_set_keys. tauto.
  - case_decide; [done|]. intros [= <-]. auto.
  - case_decide; [|done]. intros [= <-]. unfold on_message.
    destruct parsed as [message|]; [|by auto].
    destruct (handleExtensionMessage_cases message s)
      as [[_ ->]|[->|(k0 & w' & _ & _ & ->)]]; auto.
    simpl. intros Hin%Hdel. auto.
  - case_decide; [|done]. intros [= <-].
    destruct (on_close_fields ws (with_clients (filter (λ c, c ≠ ws) (clients s)) s))
      as (_ & -> & _).
    intros Hin. by apply elem_of_nil in Hin.
  - destruct (timers s !! i) as [t|]; [|done].
    case_decide; [|done]. intros [= <-]. unfold timeout_callback. simpl.
    destruct (JsMap.has (timer_id t) (pendingRequests s)); simpl; auto.
    intros Hin%Hdel. auto.
  - intros [= <-]. auto.
Qed.

Lemma run_stays_absent tr s s' n :
  run uuidv4 tr s = Some s' → n < uuid_calls s →
  uuidv4 n ∉ (pendingRequests s).*1 → uuidv4 n ∉ (pendingRequests s').*1.
Proof.
  revert s. induction tr as [|e tr IH]; intros s; simpl.
  - by intros [= <-].
  - destruct (step uuidv4 e s) as [s1|] eqn:E; [|done].
    intros Hrun Hn Hout. apply (IH s1 Hrun).
    + apply step_uuid_calls in E. lia.
    + intros [Hin|Heq]%(step_keys _ _ _ _ E); [done|].
      apply uuidv4_unique in Heq. lia.
Qed.

(** C3: a reply whose identifier is no longer in the table is ignored:
    [handleExtensionMessage] returns normally and the state (table,
    results of every Promise, timers) is unchanged; the same for a timer
    whose identifier is no longer in the table.  This is the situation
    after the timer ran, after a reply was handled, after a close event
    and after a failed send; and an identifier that has left the table
    never comes back, so a late reply or timer stays a no-op for the rest
    of the run. *)
Theorem stale_reply_and_timer_are_ignored s fields k w :
  fields !! "id" = Some (JStr k) →
  (k ∉ (pendingRequests s).*1 →
     handleExtensionMessage (JObj fields) s = Normal s ∧
     on_message (Some (JObj fields)) s = s ∧
     timeout_callback k w s = s) ∧
  handleExtensionMessage (JObj fields) (timeout_callback k w s)
    = Normal (timeout_callback k w s) ∧
  (∀ s', handleExtensionMessage (JObj fields) s = Normal s' →
     timeout_callback k w s' = s' ∧
     handleExtensionMessage (JObj fields) s' = Normal s') ∧
  (∀ ws, handleExtensionMessage (JObj fields) (on_close ws s)
           = Normal (on_close ws s) ∧
         timeout_callback k w (on_close ws s) = on_close ws s) ∧
  (∀ ws c, extensionSocket s = Some ws → k = uuidv4 (uuid_calls s) →
     let s' := (executeCommand uuidv4 c true s).2 in
     handleExtensionMessage (JObj fields) s' = Normal s' ∧
     timeout_callback k w s' = s') ∧
  (∀ n tr s', n < uuid_calls s → k = uuidv4 n →
     k ∉ (pendingRequests s).*1 → run uuidv4 tr s = Some s' →
     handleExtensionMessage (JObj fields) s' = Normal s' ∧
     timeout_callback k w s' = s').
Proof.
  intros Hid.
  split.
  { intros Hk. split; [|split].
    - by apply (stale_reply s fields k).
    - unfold on_message. by rewrite (stale_reply s fields k).
    - by apply stale_timer. }
  split.
  { apply (stale_reply _ fields k); [done | apply timeout_callback_gone]. }
  split.
  { intros s' Hs'. pose proof (reply_gone s s' fields k Hid Hs') as Hgone.
    split; [by apply stale_timer | by apply (stale_reply s' fields k)]. }
  split.
  { intros ws.
    assert (k ∉ (pendingRequests (on_close ws s)).*1) as Hgone.
    { destruct (on_close_fields ws s) as (_ & -> & _). apply not_elem_of_nil. }
    split; [by apply (stale_reply _ fields k) | by apply stale_timer]. }
  split.
  { intros ws c Hsock -> s'.
    assert (uuidv4 (uuid_calls s) ∉ (pendingRequests s').*1) as Hgone.
    { subst s'.
      destruct (executeCommand_connected c true ws s Hsock)
        as (_&_&_&_&_&_&_& -> &_).
      apply delete_gone. }
    split; [by apply (stale_reply _ fields (uuidv4 (uuid_calls s))) | by apply stale_timer]. }
  intros n tr s' Hn -> Hout Hrun.
  pose proof (run_stays_absent tr s s' n Hrun Hn Hout) as Hgone.
  split; [by apply (stale_reply _ fields (uuidv4 n)) | by apply stale_timer].
Qed.

(** ** Connection loss *)

(** C4: when a close event is handled, the socket slot becomes empty, the
    table becomes empty, and every request that was in the table has its
    [resolve] called once with [{success: false, error: 'Extension
    disconnected'}], which is therefore what its caller receives; no other
    Promise is touched. *)
Theorem close_drains_every_pending_request tr s ws s' :
  run uuidv4 tr init = Some s → step uuidv4 (WsClose ws) s = Some s' →
  extensionSocket s' = None ∧
  pendingRequests s' = [] ∧ pendingRequestCount s' = 0 ∧
  settled s' =
    settled s ++
    ((λ e : string * waiter, (e.2, extension_disconnected)) <$> pendingRequests s) ∧
  (∀ id w, (id, w) ∈ pendingRequests s →
     results_of w s' = [extension_disconnected] ∧
     response w s' = Some extension_disconnected) ∧
  (∀ w, w ∉ (pendingRequests s).*2 → results_of w s' = results_of w s) ∧
  extension_disconnected =
    JObj {[ "success" := JBool false; "error" := JStr "Extension disconnected" ]}.
Proof.
  intros Hrun Hstep.
  assert (invariant uuidv4 s) as Hinv by (apply reachable_invariant; by exists tr).
  simpl in Hstep. case_decide; [|done]. injection Hstep as <-.
  set (s0 := with_clients (filter (λ c, c ≠ ws) (clients s)) s).
  destruct (on_close_fields ws s0) as (Hsock & Hp & Hs & _).
  assert (∀ w, results_of w (on_close ws s0) =
               results_of w s ++
               (if decide (w ∈ (pendingRequests s).*2)
                then [extension_disconnected] else [])) as Hres.
  { intros w. rewrite results_of_on_close. simpl.
    rewrite (filter_eq_NoDup _ _ (inv_waiters _ _ Hinv)).
    change (results_of w s0) with (results_of w s). by case_decide. }
  split; [done|]. split; [done|].
  split; [unfold pendingRequestCount; by rewrite Hp|].
  split; [done|]. split; [|split; [|done]].
  - intros id w Hin.
    assert (results_of w (on_close ws s0) = [extension_disconnected]) as Hw.
    { rewrite Hres, (pending_unsettled s id w Hinv Hin).
      rewrite decide_True; [done|]. apply list_elem_of_fmap. by exists (id, w). }
    split; [done|]. unfold response. by rewrite Hw.
  - intros w Hout. rewrite Hres, decide_False by done. apply app_nil_r.
Qed.

(** ** Immediate failures *)

(** C5: a request made while no extension is connected is answered at once
    with [{success: false, error: 'Extension not connected'}]; no
    identifier is drawn, the table, the timers and the outgoing messages
    are unchanged.  A request whose send throws is answered at once with
    [{success: false, error: 'Failed to send to extension'}]; its entry is
    gone from the table when [executeCommand] returns, so the table is as
    it was before the call and the timer armed for it later finds nothing
    to do. *)
Theorem immediate_failures_leave_no_trace tr s c :
  run uuidv4 tr init = Some s →
  (extensionSocket s = None → ∀ b,
     let w := (executeCommand uuidv4 c b s).1 in
     let s' := (executeCommand uuidv4 c b s).2 in
     results_of w s' = [not_connected] ∧
     settled s' = settled s ++ [(w, not_connected)] ∧
     uuid_calls s' = uuid_calls s ∧
     pendingRequests s' = pendingRequests s ∧
     pendingRequestCount s' = pendingRequestCount s ∧
     timers s' = timers s ∧ outbox s' = outbox s) ∧
  (∀ ws, extensionSocket s = Some ws →
     let id := uuidv4 (uuid_calls s) in
     let w := (executeCommand uuidv4 c true s).1 in
     let s' := (executeCommand uuidv4 c true s).2 in
     results_of w s' = [send_failed] ∧
     settled s' = settled s ++ [(w, send_failed)] ∧
     JsMap.has id (pendingRequests s') = false ∧
     pendingRequests s' = pendingRequests s ∧
     pendingRequestCount s' = pendingRequestCount s ∧
     outbox s' = outbox s ∧
     timeout_callback id w s' = s').
Proof.
  intros Hrun.
  assert (invariant uuidv4 s) as Hinv by (apply reachable_invariant; by exists tr).
  pose proof (unsettled_new s Hinv) as Hnew.
  split.
  - intros Hsock b. rewrite (executeCommand_absent c b s Hsock). simpl.
    split; [|done]. unfold results_of in *. simpl.
    rewrite filter_app, fmap_app, Hnew, filter_cons. simpl.
    by rewrite decide_True.
  - intros ws Hsock.
    destruct (executeCommand_connected c true ws s Hsock)
      as (Hw & _ & _ & _ & _ & _ & _ & Hp & Hs & Ho).
    simpl. rewrite Hw.
    rewrite (delete_set_absent _ _ _ (fresh_key s Hinv)) in Hp.
    assert (uuidv4 (uuid_calls s) ∉
            (pendingRequests (executeCommand uuidv4 c true s).2).*1) as Hgone.
    { rewrite Hp. by apply fresh_key. }
    split.
    { unfold results_of in *. rewrite Hs, filter_app, fmap_app, Hnew.
      rewrite filter_cons. simpl. by rewrite decide_True. }
    split; [done|]. split; [by apply has_false|].
    split; [done|]. split; [unfold pendingRequestCount; by rewrite Hp|].
    split; [done|]. by apply stale_timer.
Qed.

(** ** Deadlines *)

Lemma timer_settles s k t w :
  invariant uuidv4 s →
  timers s !! k = Some t → (due t ≤ clock s)%N →
  JsMap.get (timer_id t) (pendingRequests s) = Some w → timer_resolve t = w →
  ∃ s', step uuidv4 (TimerFires k) s = Some s' ∧
        results_of w s' = [request_timeout] ∧
        response w s' = Some request_timeout ∧
        JsMap.has (timer_id t) (pendingRequests s') = false ∧
        pendingRequests s' = JsMap.delete (timer_id t) (pendingRequests s).
Proof.
  intros Hinv Hk Hdue Hget Hw. simpl. rewrite Hk, decide_True by done.
  eexists. split; [done|].
  unfold timeout_callback, JsMap.has. simpl. rewrite Hget. simpl.
  assert (results_of w s = []) as Hnone.
  { eapply pending_unsettled; eauto using get_Some_elem. }
  assert (∀ s0, settled s0 = settled s →
                results_of w (resolve (timer_resolve t) request_timeout s0)
                = [request_timeout]) as Hres.
  { intros s0 Hs0. unfold results_of in *. simpl.
    rewrite Hs0, filter_app, fmap_app, Hnone, filter_cons. simpl.
    by rewrite decide_True. }
  split; [by apply Hres|]. split; [unfold response; by rewrite Hres|].
  split; [|done].
  generalize (delete_gone (timer_id t) (pendingRequests s)).
  rewrite <- get_None. by intros ->.
Qed.

Lemma timer_not_early s k t :
  timers s !! k = Some t → (clock s < due t)%N →
  step uuidv4 (TimerFires k) s = None.
Proof. intros Hk Hlt. simpl. rewrite Hk. rewrite decide_False; [done | lia]. Qed.

Lemma handleExtensionMessage_frame message s s' :
  handleExtensionMessage message s = Normal s' →
  extensionSocket s' = extensionSocket s ∧ clients s' = clients s ∧
  uuid_calls s' = uuid_calls s ∧ promises s' = promises s ∧
  timers s' = timers s ∧ clock s' = clock s ∧ outbox s' = outbox s.
Proof.
  destruct (handleExtensionMessage_cases message s)
    as [[_ ->]|[->|(k & w & _ & _ & ->)]]; [done| |]; by intros [= <-].
Qed.

(** C6, as the code has it: the timer armed for a request is due 30
    seconds after the call of [executeCommand], whatever the request says;
    a timer never runs before it is due.  If the matching reply is handled
    while the request is still in the table (for instance 29999 ms after
    the call), the caller receives the reply, and the timer later finds
    nothing to do; if the request is still in the table when its timer
    runs, at 30000 ms or later, the caller receives [{success: false,
    error: 'Request timeout'}] and the entry is removed. *)
Theorem deadline_is_thirty_seconds tr s ws c :
  run uuidv4 tr init = Some s → extensionSocket s = Some ws →
  let id := uuidv4 (uuid_calls s) in
  let w := promises s in
  let s1 := (executeCommand uuidv4 c false s).2 in
  (∀ b, last (timers (executeCommand uuidv4 c b s).2)
          = Some (mkTimer (clock s + 30000) id w)) ∧
  JsMap.get id (pendingRequests s1) = Some w ∧
  results_of w s1 = [] ∧
  (∀ s2 k t, timers s2 !! k = Some t → (clock s2 < due t)%N →
     step uuidv4 (TimerFires k) s2 = None) ∧
  (∀ tr2 s2 fields,
     run uuidv4 tr2 s1 = Some s2 →
     JsMap.get id (pendingRequests s2) = Some w →
     fields !! "id" = Some (JStr id) →
     ∃ s3, handleExtensionMessage (JObj fields) s2 = Normal s3 ∧
           response w s3 = Some (JObj fields) ∧
           timeout_callback id w s3 = s3) ∧
  (∀ tr2 s2 k,
     run uuidv4 tr2 s1 = Some s2 →
     JsMap.get id (pendingRequests s2) = Some w →
     timers s2 !! k = Some (mkTimer (clock s + 30000) id w) →
     (clock s + 30000 ≤ clock s2)%N →
     ∃ s3, step uuidv4 (TimerFires k) s2 = Some s3 ∧
           response w s3 = Some request_timeout ∧
           JsMap.has id (pendingRequests s3) = false) ∧
  run uuidv4 [Elapse 29999; TimerFires (length (timers s))] s1 = None ∧
  (∃ s3, run uuidv4 [Elapse 30000; TimerFires (length (timers s))] s1 = Some s3 ∧
         response w s3 = Some request_timeout ∧
         JsMap.has id (pendingRequests s3) = false) ∧
  (∀ fields, fields !! "id" = Some (JStr id) →
     ∃ s2 s3 s4,
       run uuidv4 [Elapse 29999] s1 = Some s2 ∧
       handleExtensionMessage (JObj fields) s2 = Normal s3 ∧
       response w s3 = Some (JObj fields) ∧
       run uuidv4 [Elapse 1; TimerFires (length (timers s))] s3 = Some s4 ∧
       results_of w s4 = [JObj fields]).
Proof.
  intros Hrun Hsock id w s1.
  assert (invariant uuidv4 s) as Hinv by (apply reachable_invariant; by exists tr).
  assert (invariant uuidv4 s1) as Hinv1 by by apply executeCommand_invariant.
  assert (run uuidv4 (tr ++ [Post c false]) init = Some s1) as Hrun1.
  { rewrite run_app, Hrun. done. }
  destruct (executeCommand_connected c false ws s Hsock)
    as (_ & _ & _ & Hc1 & _ & Hprom1 & Ht1 & Hp1 & Hs1 & _).
  fold s1 id w in Hc1, Hprom1, Ht1, Hp1, Hs1.
  assert (JsMap.get id (pendingRequests s1) = Some w) as Hget1.
  { rewrite Hp1. apply get_set_eq. }
  assert (timers s1 !! length (timers s) = Some (mkTimer (clock s + 30000) id w))
    as Hk1.
  { rewrite Ht1. by apply list_lookup_middle. }
  assert (∀ s2 fields,
            invariant uuidv4 s2 →
            JsMap.get id (pendingRequests s2) = Some w →
            fields !! "id" = Some (JStr id) →
            ∃ s3, handleExtensionMessage (JObj fields) s2 = Normal s3 ∧
                  response w s3 = Some (JObj fields) ∧
                  results_of w s3 = [JObj fields] ∧
                  id ∉ (pendingRequests s3).*1) as Hreply.
  { intros s2 fields Hinv2 Hget2 Hid.
    destruct (reply_resolves_its_waiter s2 fields id w Hinv2 Hid Hget2)
      as (s3 & Hh & _ & _ & _ & Hres & _ & Hgone & _).
    exists s3. split; [done|]. split; [unfold response; by rewrite Hres|].
    split; [done|]. by apply get_None. }
  assert (∀ tr2 s2, run uuidv4 tr2 s1 = Some s2 → invariant uuidv4 s2) as Hlater.
  { intros tr2 s2 Hrun2. eapply run_invariant; eauto. }
  split.
  { intros b.
    destruct (executeCommand_connected c b ws s Hsock)
      as (_ & _ & _ & _ & _ & _ & -> & _).
    apply last_snoc. }
  split; [done|].
  split; [eapply pending_unsettled; eauto using get_Some_elem|].
  split; [intros s2 k t; apply timer_not_early|].
  split.
  { intros tr2 s2 fields Hrun2 Hget2 Hid.
    destruct (Hreply s2 fields (Hlater _ _ Hrun2) Hget2 Hid)
      as (s3 & Hh & Hresp & _ & Hgone).
    exists s3. split; [done|]. split; [done|]. by apply stale_timer. }
  split.
  { intros tr2 s2 k Hrun2 Hget2 Hk Hdue.
    destruct (timer_settles s2 k (mkTimer (clock s + 30000) id w) w
                (Hlater _ _ Hrun2) Hk Hdue Hget2 eq_refl)
      as (s3 & Hstep & _ & Hresp & Hhas & _).
    by exists s3. }
  split.
  { simpl. rewrite Hk1. simpl. rewrite decide_False; [done | rewrite Hc1; lia]. }
  split.
  { destruct (timer_settles (with_clock (clock s1 + 30000) s1)
                (length (timers s)) (mkTimer (clock s + 30000) id w) w)
      as (s3 & Hstep & _ & Hresp & Hhas & _); try done.
    - by apply (invariant_frame uuidv4 s1).
    - simpl. rewrite Hc1. lia.
    - exists s3. split; [|done]. simpl in *. by rewrite Hstep. }
  intros fields Hid.
  set (s2 := with_clock (clock s1 + 29999) s1).
  destruct (Hreply s2 fields) as (s3 & Hh & Hresp & Hres & Hgone); try done.
  { by apply (invariant_frame uuidv4 s1). }
  destruct (handleExtensionMessage_frame _ _ _ Hh)
    as (_ & _ & _ & _ & Ht3 & Hc3 & _).
  exists s2, s3. eexists. split; [done|]. split; [done|]. split; [done|].
  split.
  - simpl. rewrite Ht3. simpl. rewrite Hk1. simpl.
    rewrite decide_True; [done|]. rewrite Hc3. simpl. rewrite Hc1. lia.
  - rewrite stale_timer by done. done.
Qed.

(** ** What the caller receives *)

(** What [resolve(message)] hands over: for a reply whose identifier is in
    the table, the Promise settles to the reply exactly as the extension
    sent it, nothing taken out; in particular an [error] string reported
    with [success: false] arrives unchanged. *)
Theorem reply_is_delivered_verbatim tr s fields k w :
  run uuidv4 tr init = Some s →
  fields !! "id" = Some (JStr k) →
  JsMap.get k (pendingRequests s) = Some w →
  let s' := on_message (Some (JObj fields)) s in
  response w s' = Some (JObj fields) ∧
  results_of w s' = [JObj fields] ∧
  (∃ out, response w s' = Some (JObj out) ∧
          out !! "id" = Some (JStr k) ∧
          ∀ name, out !! name = fields !! name) ∧
  (∀ e, fields !! "success" = Some (JBool false) →
        fields !! "error" = Some (JStr e) →
        ∃ out, response w s' = Some (JObj out) ∧
               out !! "success" = Some (JBool false) ∧
               out !! "error" = Some (JStr e)).
Proof.
  intros Hrun Hid Hget s'.
  assert (invariant uuidv4 s) as Hinv by (apply reachable_invariant; by exists tr).
  destruct (reply_resolves_its_waiter s fields k w Hinv Hid Hget)
    as (s3 & Hh & _ & _ & _ & Hres & _).
  assert (s' = s3) as -> by (subst s'; unfold on_message; by rewrite Hh).
  assert (response w s3 = Some (JObj fields)) as Hresp.
  { unfold response. by rewrite Hres. }
  split; [done|]. split; [done|]. split.
  - by exists fields.
  - intros e Hsucc Herr. by exists fields.
Qed.

(** ** Commands are not inspected *)

Lemma spread_after_id_fields id c :
  ∃ m, spread_after_id id c = JObj m ∧
       (∀ name v, own_props c !! name = Some v → m !! name = Some v) ∧
       (∀ name, name ≠ "id" → m !! name = own_props c !! name) ∧
       (own_props c !! "id" = None → m !! "id" = Some (JStr id)) ∧
       (∀ v, own_props c !! "id" = Some v → m !! "id" = Some v).
Proof.
  eexists. split; [done|]. repeat split.
  - intros name v Hv. by apply lookup_union_Some_l.
  - intros name Hne. rewrite lookup_union_l; [done|]. by apply lookup_singleton_ne.
  - intros Hnone. rewrite lookup_union_r by done. apply lookup_singleton_eq.
  - intros v Hv. by apply lookup_union_Some_l.
Qed.

(** C10, as the code has it: [executeCommand] does not look at the
    command.  While an extension is connected, for any JSON value
    whatever, an identifier is drawn, a timer is armed, and the table,
    timers, counters and results after the call are the same as for any
    other command; when the send does not throw, the waiter is registered
    under the identifier and the message handed to the socket has every
    property of the command with its value, nothing else except [id], and
    [id] is the identifier when the command has no [id] of its own.  The
    caller of such a request receives the send failure (only when the
    send throws), a message of the extension, the disconnect failure or
    the timeout, and nothing else. *)
Theorem commands_are_forwarded_unchecked tr s ws c b :
  run uuidv4 tr init = Some s → extensionSocket s = Some ws →
  let id := uuidv4 (uuid_calls s) in
  let w := promises s in
  let s1 := (executeCommand uuidv4 c b s).2 in
  uuid_calls s1 = S (uuid_calls s) ∧
  timers s1 = timers s ++ [mkTimer (clock s + 30000) id w] ∧
  (∀ c', let s1' := (executeCommand uuidv4 c' b s).2 in
         pendingRequests s1' = pendingRequests s1 ∧ timers s1' = timers s1 ∧
         settled s1' = settled s1 ∧ uuid_calls s1' = uuid_calls s1 ∧
         promises s1' = promises s1 ∧
         extensionSocket s1' = extensionSocket s1 ∧
         length (outbox s1') = length (outbox s1)) ∧
  (b = false →
     JsMap.get id (pendingRequests s1) = Some w ∧ results_of w s1 = [] ∧
     ∃ m, outbox s1 = outbox s ++ [(ws, JObj m)] ∧
          (∀ name v, own_props c !! name = Some v → m !! name = Some v) ∧
          (∀ name, name ≠ "id" → m !! name = own_props c !! name) ∧
          (own_props c !! "id" = None → m !! "id" = Some (JStr id))) ∧
  (b = true → results_of w s1 = [send_failed]) ∧
  (∀ tr' s' r,
     run uuidv4 tr' s1 = Some s' → r ∈ results_of w s' →
     (b = true ∧ r = send_failed) ∨ r = request_timeout ∨
     r = extension_disconnected ∨ ∃ ws', WsMessage ws' (Some r) ∈ tr').
Proof.
  intros Hrun Hsock id w s1.
  assert (invariant uuidv4 s) as Hinv by (apply reachable_invariant; by exists tr).
  pose proof (unsettled_new s Hinv) as Hnew. fold w in Hnew.
  destruct (executeCommand_connected c b ws s Hsock)
    as (_ & Hsock1 & _ & _ & Hu1 & Hprom1 & Ht1 & Hp1 & Hs1 & Ho1).
  fold s1 id w in Hsock1, Hu1, Hprom1, Ht1, Hp1, Hs1, Ho1.
  split; [done|]. split; [done|]. split.
  { intros c' s1'.
    destruct (executeCommand_connected c' b ws s Hsock)
      as (_ & Hsock2 & _ & _ & Hu2 & Hprom2 & Ht2 & Hp2 & Hs2 & Ho2).
    fold s1' id w in Hsock2, Hu2, Hprom2, Ht2, Hp2, Hs2, Ho2.
    rewrite Hsock1, Hu1, Hprom1, Ht1, Hp1, Hs1, Ho1.
    repeat split; try done.
    rewrite Ho2. destruct b; [done|]. by rewrite !length_app. }
  split.
  { intros ->. split; [rewrite Hp1; apply get_set_eq|].
    split; [unfold results_of in *; by rewrite Hs1|].
    destruct (spread_after_id_fields id c) as (m & Hm & H1 & H2 & H3 & _).
    exists m. rewrite Ho1, Hm. done. }
  split.
  { intros ->. unfold results_of in *.
    rewrite Hs1, filter_app, fmap_app, Hnew, filter_cons. simpl.
    by rewrite decide_True. }
  intros tr' s' r Hrun' Hr%elem_of_results_of.
  destruct (run_settled_existing tr' s1 s' w r Hrun') as [Hin|?]; [lia|done| |tauto].
  rewrite Hs1 in Hin. destruct b.
  - apply elem_of_app in Hin as [Hin|[= ->]%list_elem_of_singleton]; [|by left].
    pose proof (inv_settled _ _ Hinv _ _ Hin). lia.
  - pose proof (inv_settled _ _ Hinv _ _ Hin). lia.
Qed.

End Correctness.

(** * The properties on sample runs *)

Ltac by_evaluation := vm_compute; reflexivity.

Lemma demo_uuid_unique i j : demo_uuid i = demo_uuid j → i = j.
Proof.
  unfold demo_uuid. intros H. apply String.app_inj in H.
  by apply (inj pretty) in H.
Qed.

Lemma error_of_failure_inj e1 e2 : failure e1 = failure e2 → e1 = e2.
Proof.
  intros H.
  apply (f_equal (λ r, match r with JObj m => m !! "error" | _ => None end)) in H.
  vm_compute in H. congruence.
Qed.

Lemma exactly_one_terminal_result_witness :
  run demo_uuid timed_out init = Some (after timed_out) ∧
  0 < promises (after timed_out) ∧
  length (results_of 0 (after timed_out)) ≤ 1 ∧
  (¬ armed 0 (after timed_out) → length (results_of 0 (after timed_out)) = 1).
Proof.
  assert (run demo_uuid timed_out init = Some (after timed_out)) as Hrun
    by (vm_compute; reflexivity).
  assert (0 < promises (after timed_out)) as Hw by (vm_compute; lia).
  destruct (exactly_one_terminal_result demo_uuid demo_uuid_unique
              timed_out (after timed_out) 0 Hrun Hw) as (H1 & _ & _ & H4 & _).
  exact (conj Hrun (conj Hw (conj H1 H4))).
Defined.

Lemma two_pending_table :
  pendingRequests (after two_pending) = [("uuid-0", 0); ("uuid-1", 1)].
Proof. vm_compute. reflexivity. Qed.

Lemma identifiers_distinct_and_matched_by_id_witness :
  run demo_uuid two_pending init = Some (after two_pending) ∧
  ∃ s', handleExtensionMessage (JObj (hello "uuid-1")) (after two_pending)
          = Normal s' ∧
        results_of 1 s' = [JObj (hello "uuid-1")] ∧
        (∀ w, w ≠ 1 → results_of w s' = results_of w (after two_pending)) ∧
        (∀ B, B ≠ "uuid-1" →
           JsMap.get B (pendingRequests s')
           = JsMap.get B (pendingRequests (after two_pending))).
Proof.
  assert (run demo_uuid two_pending init = Some (after two_pending)) as Hrun
    by (vm_compute; reflexivity).
  split; [exact Hrun|].
  apply (proj1 (proj2 (identifiers_distinct_and_matched_by_id
                         demo_uuid demo_uuid_unique two_pending
                         (after two_pending) Hrun))).
  - vm_compute. reflexivity.
  - vm_compute. reflexivity.
Defined.

Lemma stale_reply_and_timer_are_ignored_witness :
  hello "uuid-0" !! "id" = Some (JStr "uuid-0") ∧
  handleExtensionMessage (JObj (hello "uuid-0"))
      (timeout_callback "uuid-0" 0 (after two_pending))
    = Normal (timeout_callback "uuid-0" 0 (after two_pending)).
Proof.
  assert (hello "uuid-0" !! "id" = Some (JStr "uuid-0")) as Hid
    by (vm_compute; reflexivity).
  split; [exact Hid|].
  exact (proj1 (proj2 (stale_reply_and_timer_are_ignored
                         demo_uuid demo_uuid_unique (after two_pending)
                         (hello "uuid-0") "uuid-0" 0 Hid))).
Defined.

Lemma close_drains_every_pending_request_witness :
  run demo_uuid two_pending init = Some (after two_pending) ∧
  step demo_uuid (WsClose 1) (after two_pending)
    = Some (after (two_pending ++ [WsClose 1])) ∧
  pendingRequests (after (two_pending ++ [WsClose 1])) = [] ∧
  response 0 (after (two_pending ++ [WsClose 1])) = Some extension_disconnected ∧
  response 1 (after (two_pending ++ [WsClose 1])) = Some extension_disconnected.
Proof.
  assert (run demo_uuid two_pending init = Some (after two_pending)) as Hrun
    by (vm_compute; reflexivity).
  assert (step demo_uuid (WsClose 1) (after two_pending)
          = Some (after (two_pending ++ [WsClose 1]))) as Hstep
    by (vm_compute; reflexivity).
  destruct (close_drains_every_pending_request demo_uuid demo_uuid_unique
              two_pending (after two_pending) 1 _ Hrun Hstep)
    as (_ & Hempty & _ & _ & Hall & _).
  split; [exact Hrun|]. split; [exact Hstep|]. split; [exact Hempty|].
  split.
  - apply (Hall "uuid-0" 0). rewrite two_pending_table. left.
  - apply (Hall "uuid-1" 1). rewrite two_pending_table. right. left.
Defined.

Lemma immediate_failures_leave_no_trace_witness :
  run demo_uuid [] init = Some init ∧
  extensionSocket init = None ∧
  results_of 0 (executeCommand demo_uuid read_x false init).2 = [not_connected] ∧
  uuid_calls (executeCommand demo_uuid read_x false init).2 = uuid_calls init ∧
  pendingRequests (executeCommand demo_uuid read_x false init).2
    = pendingRequests init.
Proof.
  assert (run demo_uuid [] init = Some init) as Hrun by reflexivity.
  assert (extensionSocket init = None) as Hsock by reflexivity.
  destruct (proj1 (immediate_failures_leave_no_trace demo_uuid demo_uuid_unique
                     [] init read_x Hrun) Hsock false)
    as (H1 & _ & H3 & H4 & _).
  exact (conj Hrun (conj Hsock (conj H1 (conj H3 H4)))).
Defined.

Lemma deadline_is_thirty_seconds_witness :
  run demo_uuid connected init = Some (after connected) ∧
  extensionSocket (after connected) = Some 1 ∧
  last (timers (executeCommand demo_uuid read_x_in_5s false (after connected)).2)
    = Some (mkTimer (clock (after connected) + 30000)
                    (demo_uuid (uuid_calls (after connected)))
                    (promises (after connected))).
Proof.
  assert (run demo_uuid connected init = Some (after connected)) as Hrun
    by (vm_compute; reflexivity).
  assert (extensionSocket (after connected) = Some 1) as Hsock
    by (vm_compute; reflexivity).
  split; [exact Hrun|]. split; [exact Hsock|].
  exact (proj1 (deadline_is_thirty_seconds demo_uuid demo_uuid_unique
                  connected (after connected) 1 read_x_in_5s Hrun Hsock) false).
Defined.

Lemma reply_is_delivered_verbatim_witness :
  run demo_uuid one_pending init = Some (after one_pending) ∧
  response 0 (on_message (Some (JObj (hello "uuid-0"))) (after one_pending))
    = Some (JObj (hello "uuid-0")).
Proof.
  assert (run demo_uuid one_pending init = Some (after one_pending)) as Hrun
    by (vm_compute; reflexivity).
  split; [exact Hrun|].
  apply (reply_is_delivered_verbatim demo_uuid demo_uuid_unique
           one_pending (after one_pending) (hello "uuid-0") "uuid-0" 0 Hrun).
  - vm_compute. reflexivity.
  - vm_compute. reflexivity.
Defined.

Lemma commands_are_forwarded_unchecked_witness :
  run demo_uuid connected init = Some (after connected) ∧
  extensionSocket (after connected) = Some 1 ∧
  uuid_calls (executeCommand demo_uuid bogus false (after connected)).2
    = S (uuid_calls (after connected)).
Proof.
  assert (run demo_uuid connected init = Some (after connected)) as Hrun
    by (vm_compute; reflexivity).
  assert (extensionSocket (after connected) = Some 1) as Hsock
    by (vm_compute; reflexivity).
  split; [exact Hrun|]. split; [exact Hsock|].
  exact (proj1 (commands_are_forwarded_unchecked demo_uuid demo_uuid_unique
                  connected (after connected) 1 bogus false Hrun Hsock)).
Defined.

(** ** Where the interface description and the code part *)

Example read_in_5s_timer :
  requested_timeout read_x_in_5s = 5000%N ∧
  timers (after (connected ++ [Post read_x_in_5s false]))
    = [mkTimer 30000 "uuid-0" 0].
Proof. split; by_evaluation. Qed.

Example hello_reaches_caller :
  hello "uuid-0" !! "id" = Some (JStr "uuid-0") ∧
  response 0 (after (one_pending ++ [WsMessage 1 (Some (JObj (hello "uuid-0")))]))
    = Some (JObj (hello "uuid-0")).
Proof. split; by_evaluation. Qed.

Example bogus_send_failure :
  response 0 (after (connected ++ [Post bogus true])) = Some send_failed ∧
  pendingRequests (after (connected ++ [Post bogus true])) = [].
Proof. split; by_evaluation. Qed.

(** A request asking for 5 seconds gets its timer 30 seconds out. *)
Lemma deadline_ignores_requested_timeout : ¬ deadline_follows_request.
Proof.
  intros H.
  specialize (H demo_uuid demo_uuid_unique
                connected (after connected) 1 read_x_in_5s false).
  assert (run demo_uuid connected init = Some (after connected)) as Hrun
    by (vm_compute; reflexivity).
  assert (extensionSocket (after connected) = Some 1) as Hsock
    by (vm_compute; reflexivity).
  specialize (H Hrun Hsock). vm_compute in H. discriminate H.
Qed.

(** The reply to the sample read does not reach the caller without its
    [id]. *)
Lemma reply_keeps_id : ¬ reply_delivered_without_id.
Proof.
  intros H.
  specialize (H demo_uuid demo_uuid_unique one_pending (after one_pending)
                (hello "uuid-0") "uuid-0" 0).
  assert (run demo_uuid one_pending init = Some (after one_pending)) as Hrun
    by (vm_compute; reflexivity).
  specialize (H Hrun ltac:(vm_compute; reflexivity) ltac:(vm_compute; reflexivity)).
  apply (f_equal (λ o, match o with
                       | Some (JObj m) => m !! "id"
                       | _ => None
                       end)) in H.
  vm_compute in H. discriminate H.
Qed.

(** A command whose send throws is answered by the server itself. *)
Lemma send_failure_is_a_fourth_ending : ¬ only_extension_disconnect_or_timeout.
Proof.
  intros H.
  specialize (H demo_uuid demo_uuid_unique
                connected (after connected) 1 bogus true []
                (executeCommand demo_uuid bogus true (after connected)).2
                send_failed).
  assert (run demo_uuid connected init = Some (after connected)) as Hrun
    by (vm_compute; reflexivity).
  assert (extensionSocket (after connected) = Some 1) as Hsock
    by (vm_compute; reflexivity).
  specialize (H Hrun Hsock eq_refl).
  destruct H as [H|[H|(ws' & H)]].
  - assert (results_of (promises (after connected))
              (executeCommand demo_uuid bogus true (after connected)).2
            = [send_failed]) as -> by (vm_compute; reflexivity).
    left.
  - apply error_of_failure_inj in H. discriminate H.
  - apply error_of_failure_inj in H. discriminate H.
  - by apply elem_of_nil in H.
Qed.

(** ** Three runs that go wrong *)

(** C8 at [{id: 'abc', action: 'read', selector: '#x'}]: the waiter is
    registered under the identifier drawn from [uuidv4], but the message
    handed to the socket carries the command's own [id]; a reply echoing
    that [id] is matched against the table and dropped, and the request
    ends by its timeout. *)
Theorem command_id_replaces_injected_id :
  let tr := [WsConnection 1; Post read_x_with_id false] in
  let reply : gmap string json :=
    {[ "id" := JStr "abc"; "success" := JBool true; "data" := JStr "hello" ]} in
  run demo_uuid tr init = Some (after tr) ∧
  pendingRequests (after tr) = [("uuid-0", 0)] ∧
  outbox (after tr) = [(1, read_x_with_id)] ∧
  (∃ m, outbox (after tr) = [(1, JObj m)] ∧ m !! "id" = Some (JStr "abc")) ∧
  on_message (Some (JObj reply)) (after tr) = after tr ∧
  response 0 (on_message (Some (JObj reply)) (after tr)) = None ∧
  response 0 (after (tr ++ [WsMessage 1 (Some (JObj reply)); Elapse 30000;
                            TimerFires 0]))
    = Some request_timeout.
Proof.
  intros tr reply.
  repeat match goal with |- _ ∧ _ => split end; try by_evaluation.
  eexists. split; by_evaluation.
Qed.

(** C9 at connect 1, connect 2, a request, close of 1: the request went
    out on socket 2, which is still open, yet the close event of the
    replaced socket 1 empties the slot, fails the request with 'Extension
    disconnected', and the next request is refused with 'Extension not
    connected'. *)
Theorem close_of_replaced_peer_drops_live_peer :
  let before := [WsConnection 1; WsConnection 2; Post read_x false] in
  let tr := before ++ [WsClose 1] in
  run demo_uuid tr init = Some (after tr) ∧
  extensionSocket (after before) = Some 2 ∧
  outbox (after before) = [(2, spread_after_id "uuid-0" read_x)] ∧
  pendingRequests (after before) = [("uuid-0", 0)] ∧
  clients (after tr) = [2] ∧
  extensionSocket (after tr) = None ∧
  extensionConnected (after tr) = false ∧
  pendingRequests (after tr) = [] ∧
  response 0 (after tr) = Some extension_disconnected ∧
  response 1 (after (tr ++ [Post read_x false])) = Some not_connected.
Proof.
  intros before tr.
  repeat match goal with |- _ ∧ _ => split end; by_evaluation.
Qed.

(** C7 at the read of [#x] answered by [{id, success: true, data:
    'hello', elementType: 'input'}]: the documented response of
    [POST /execute] has [success], [data], [error] and [elementType], and
    the results the server builds itself have no [id]; but
    [handleExtensionMessage] resolves the Promise with the whole frame, so
    the body sent by [res.json(result)] is the frame with the internal
    identifier still in it, not the frame minus [id]. *)
Theorem reply_reaches_caller_with_id :
  let reply := hello "uuid-0" in
  let tr := one_pending ++ [WsMessage 1 (Some (JObj reply))] in
  run demo_uuid tr init = Some (after tr) ∧
  pendingRequests (after one_pending) = [("uuid-0", 0)] ∧
  outbox (after one_pending) = [(1, spread_after_id "uuid-0" read_x)] ∧
  pendingRequests (after tr) = [] ∧
  response 0 (after tr) = Some (JObj reply) ∧
  (∃ body, response 0 (after tr) = Some (JObj body) ∧
           body !! "id" = Some (JStr "uuid-0") ∧
           body !! "success" = Some (JBool true) ∧
           body !! "data" = Some (JStr "hello") ∧
           body !! "elementType" = Some (JStr "input")) ∧
  response 0 (after tr) ≠ Some (JObj (delete "id" reply)) ∧
  get_field "id" not_connected = None ∧
  get_field "id" send_failed = None ∧
  get_field "id" request_timeout = None ∧
  get_field "id" extension_disconnected = None.
Proof.
  intros reply tr.
  repeat match goal with |- _ ∧ _ => split end; try by_evaluation.
  - eexists. repeat match goal with |- _ ∧ _ => split end; by_evaluation.
  - intros H.
    apply (f_equal (λ o, match o with
                         | Some (JObj m) => m !! "id"
                         | _ => None
                         end)) in H.
    vm_compute in H. discriminate H.
Qed.

(** * Further properties of the bridge server *)

Lemma StronglySorted_sublist {A} (R : relation A) (l1 l2 : list A) :
  l1 `sublist_of` l2 → StronglySorted R l2 → StronglySorted R l1.
Proof.
  induction 1 as [|x l1 l2 Hsub IH|x l1 l2 Hsub IH]; [done| |].
  - intros [Hs Hall]%StronglySorted_inv. constructor; [auto|].
    rewrite Forall_forall in *. intros y Hy. apply Hall.
    by eapply elem_of_sublist.
  - intros [Hs _]%StronglySorted_inv. auto.
Qed.

Lemma step_socket_clients uuidv4 e s s' :
  step uuidv4 e s = Some s' →
  match e with
  | WsConnection ws =>
      (ws ∉ clients s) ∧ extensionSocket s' = Some ws ∧ clients s' = clients s ++ [ws]
  | WsClose ws =>
      (ws ∈ clients s) ∧ extensionSocket s' = None ∧
      clients s' = filter (λ c, c ≠ ws) (clients s)
  | _ => extensionSocket s' = extensionSocket s ∧ clients s' = clients s
  end.
Proof.
  destruct e as [c b|ws|ws parsed|ws|k|dt]; simpl.
  - intros [= <-]. destruct (extensionSocket s) as [ws|] eqn:Hsock.
    + destruct (executeCommand_connected uuidv4 c b ws s Hsock)
        as (_ & -> & -> & _). done.
    + by rewrite (executeCommand_absent uuidv4 c b s Hsock).
  - case_decide; [done|]. by intros [= <-].
  - case_decide; [|done]. intros [= <-]. unfold on_message.
    destruct parsed as [message|]; [|done].
    destruct (handleExtensionMessage message s) as [s1|] eqn:E; [|done].
    by destruct (handleExtensionMessage_frame _ _ _ E) as (-> & -> & _).
  - case_decide; [|done]. intros [= <-].
    destruct (on_close_fields ws (with_clients (filter (λ c, c ≠ ws) (clients s)) s))
      as (-> & _ & _ & -> & _). done.
  - destruct (timers s !! k) as [t|]; [|done].
    case_decide; [|done]. intros [= <-].
    by destruct (timeout_callback_frame (timer_id t) (timer_resolve t)
                (with_timers (delete k (timers s)) s)) as (-> & -> & _).
  - by intros [= <-].
Qed.

Lemma run_snoc_ind uuidv4 (P : state → Prop) :
  P init →
  (∀ e s s', P s → step uuidv4 e s = Some s' → P s') →
  ∀ tr s, run uuidv4 tr init = Some s → P s.
Proof.
  intros Hinit Hstep tr. generalize init Hinit.
  induction tr as [|e tr IH]; intros s0 H0 s; simpl.
  - by intros [= <-].
  - destruct (step uuidv4 e s0) as [s1|] eqn:E; [|done]. eauto.
Qed.

(** X1: whenever [extensionSocket] holds a socket, it is the socket that
    connected last, and its close event has not been handled yet: the
    server never sends on a socket it has seen close. *)
Theorem socket_slot_is_latest_open_socket uuidv4 tr s ws :
  run uuidv4 tr init = Some s → extensionSocket s = Some ws →
  last (clients s) = Some ws ∧ ws ∈ clients s.
Proof.
  intros Hrun Hsock.
  assert (last (clients s) = Some ws) as Hlast.
  { revert ws Hsock. revert tr s Hrun.
    apply (run_snoc_ind uuidv4
             (λ s, ∀ ws, extensionSocket s = Some ws → last (clients s) = Some ws)).
    - done.
    - intros e s s' IH Hstep ws. apply step_socket_clients in Hstep.
      destruct e; try (destruct Hstep as [-> ->]; by apply IH).
      + destruct Hstep as (_ & -> & ->). intros [= ->]. apply last_snoc.
      + by destruct Hstep as (_ & -> & _). }
  split; [done|].
  destruct (clients s) as [|c l] using rev_ind; [done|].
  rewrite last_snoc in Hlast. injection Hlast as ->.
  apply elem_of_app. right. left.
Qed.

(** ** Every entry has a timer due within thirty seconds *)
Lemma step_due_bound uuidv4 e s s' :
  step uuidv4 e s = Some s' →
  (∀ t, t ∈ timers s → (due t ≤ clock s + 30000)%N) →
  ∀ t, t ∈ timers s' → (due t ≤ clock s' + 30000)%N.
Proof.
  destruct e as [c b|ws|ws parsed|ws|k|dt]; simpl.
  - intros [= <-] IH t. destruct (extensionSocket s) as [ws|] eqn:Hsock.
    + destruct (executeCommand_connected uuidv4 c b ws s Hsock)
        as (_ & _ & _ & -> & _ & _ & -> & _).
      intros [Hin| ->%list_elem_of_singleton]%elem_of_app; [auto | simpl; lia].
    + rewrite (executeCommand_absent uuidv4 c b s Hsock). simpl. auto.
  - case_decide; [done|]. intros [= <-]. auto.
  - case_decide; [|done]. intros [= <-]. unfold on_message.
    destruct parsed as [message|]; [|by auto].
    destruct (handleExtensionMessage message s) as [s1|] eqn:E; [|by auto].
    destruct (handleExtensionMessage_frame _ _ _ E) as (_ & _ & _ & _ & -> & -> & _).
    auto.
  - case_decide; [|done]. intros [= <-].
    destruct (on_close_fields ws (with_clients (filter (λ c, c ≠ ws) (clients s)) s))
      as (_ & _ & _ & _ & _ & _ & -> & -> & _). auto.
  - destruct (timers s !! k) as [t0|]; [|done].
    case_decide; [|done]. intros [= <-] IH t.
    destruct (timeout_callback_frame (timer_id t0) (timer_resolve t0)
                (with_timers (delete k (timers s)) s))
      as (_ & _ & _ & _ & -> & -> & _).
    simpl. intros Hin%elem_of_delete_index_inv. auto.
  - intros [= <-] IH t Hin. simpl in *. apply IH in Hin. lia.
Qed.

(** X2: every entry of the table has a timer armed under its identifier
    and waiter that is due at most 30 seconds from now; letting 30 seconds
    pass and running that timer answers the request with the timeout
    failure and removes the entry. *)
Theorem pending_request_ends_within_thirty_seconds uuidv4 tr s id w :
  (∀ i j, uuidv4 i = uuidv4 j → i = j) →
  run uuidv4 tr init = Some s →
  JsMap.get id (pendingRequests s) = Some w →
  ∃ k t s',
    timers s !! k = Some t ∧ timer_id t = id ∧ timer_resolve t = w ∧
    (due t ≤ clock s + 30000)%N ∧
    run uuidv4 [Elapse 30000; TimerFires k] s = Some s' ∧
    response w s' = Some request_timeout ∧
    JsMap.has id (pendingRequests s') = false.
Proof.
  intros Huniq Hrun Hget.
  assert (invariant uuidv4 s) as Hinv.
  { apply (reachable_invariant uuidv4 Huniq). by exists tr. }
  assert (∀ t, t ∈ timers s → (due t ≤ clock s + 30000)%N) as Hdue.
  { clear Hget Hinv. revert tr s Hrun.
    apply (run_snoc_ind uuidv4
             (λ s, ∀ t, t ∈ timers s → (due t ≤ clock s + 30000)%N)).
    - intros t Hin. by apply elem_of_nil in Hin.
    - intros e s s' IH Hstep. by eapply step_due_bound. }
  destruct (inv_armed _ _ Hinv id w (get_Some_elem _ _ _ Hget))
    as (t & Ht & Hid & Hw).
  apply list_elem_of_lookup in Ht as Hk. destruct Hk as [k Hk].
  destruct (timer_settles uuidv4 (with_clock (clock s + 30000) s) k t w)
    as (s' & Hstep & _ & Hresp & Hhas & _); try done.
  { by apply (invariant_frame uuidv4 s). }
  { simpl. by apply Hdue. }
  { simpl. by rewrite Hid. }
  exists k, t, s'. rewrite <- Hid in *.
  repeat split; try done; [by apply Hdue|].
  simpl in *. by rewrite Hstep.
Qed.

(** ** What is handed to the socket *)
(** X3: every message handed to a socket is a JSON object with an [id]
    property, whatever JSON value the command was, and no more messages
    are sent than identifiers are drawn. *)
Theorem every_outbound_message_carries_an_id uuidv4 tr s :
  run uuidv4 tr init = Some s →
  (∀ ws message, (ws, message) ∈ outbox s →
     ∃ fields, message = JObj fields ∧ is_Some (fields !! "id")) ∧
  length (outbox s) ≤ uuid_calls s.
Proof.
  revert tr s.
  apply (run_snoc_ind uuidv4
           (λ s, (∀ ws message, (ws, message) ∈ outbox s →
                    ∃ fields, message = JObj fields ∧ is_Some (fields !! "id")) ∧
                 length (outbox s) ≤ uuid_calls s)).
  - split; [|done]. intros ws m Hin. by apply elem_of_nil in Hin.
  - intros e s s' [IH1 IH2] Hstep.
    destruct e as [c b|ws|ws parsed|ws|k|dt]; simpl in Hstep.
    + injection Hstep as <-. destruct (extensionSocket s) as [ws|] eqn:Hsock.
      * destruct (executeCommand_connected uuidv4 c b ws s Hsock)
          as (_ & _ & _ & _ & -> & _ & _ & _ & _ & ->).
        destruct b; [split; [done | lia]|]. split.
        -- intros ws' m [Hin|[= -> ->]%list_elem_of_singleton]%elem_of_app; [eauto|].
           eexists. split; [done|]. apply lookup_union_is_Some. right.
           by rewrite lookup_singleton_eq.
        -- rewrite length_app. simpl. lia.
      * rewrite (executeCommand_absent uuidv4 c b s Hsock). done.
    + case_decide; [done|]. by injection Hstep as <-.
    + case_decide; [|done]. injection Hstep as <-. unfold on_message.
      destruct parsed as [message|]; [|done].
      destruct (handleExtensionMessage message s) as [s1|] eqn:E; [|done].
      by destruct (handleExtensionMessage_frame _ _ _ E)
        as (_ & _ & -> & _ & _ & _ & ->).
    + case_decide; [|done]. injection Hstep as <-.
      by destruct (on_close_fields ws (with_clients (filter (λ c, c ≠ ws) (clients s)) s))
        as (_ & _ & _ & _ & -> & _ & _ & _ & ->).
    + destruct (timers s !! k) as [t|]; [|done].
      case_decide; [|done]. injection Hstep as <-.
      by destruct (timeout_callback_frame (timer_id t) (timer_resolve t)
                  (with_timers (delete k (timers s)) s))
        as (_ & _ & -> & _ & _ & _ & ->).
    + by injection Hstep as <-.
Qed.

(** ** Frames that have no effect *)
(** X4: a frame changes the server's state exactly when it parses to an
    object whose [id] is a string that is a key of the table; then the
    waiter stored under that key is resolved with the frame and the key
    deleted.  Frames that do not parse, [null], arrays, primitives and
    objects without such an [id] leave everything as it is. *)
Theorem only_a_correlated_object_has_an_effect parsed s :
  on_message parsed s ≠ s ↔
  ∃ fields k w,
    parsed = Some (JObj fields) ∧ fields !! "id" = Some (JStr k) ∧
    JsMap.get k (pendingRequests s) = Some w ∧
    on_message parsed s =
      resolve w (JObj fields)
        (with_pending (JsMap.delete k (pendingRequests s)) s).
Proof.
  split.
  - unfold on_message. destruct parsed as [message|]; [|done].
    destruct (handleExtensionMessage_cases message s)
      as [[_ ->]|[->|(k & w & Hid & Hget & ->)]]; [done|done|].
    intros _. destruct message as [| | | | |fields]; try done.
    simpl in Hid. injection Hid as Hid. by exists fields, k, w.
  - intros (fields & k & w & _ & _ & _ & ->) Heq.
    apply (f_equal (λ x, length (settled x))) in Heq. simpl in Heq.
    rewrite length_app in Heq. simpl in Heq. lia.
Qed.

(** ** Order of the table *)
(** X5: the table lists the requests in flight in the order they were
    made, so a close event fails them oldest first. *)
Theorem close_answers_oldest_first uuidv4 tr s :
  (∀ i j, uuidv4 i = uuidv4 j → i = j) →
  run uuidv4 tr init = Some s →
  StronglySorted lt (pendingRequests s).*2 ∧
  ∀ ws s', step uuidv4 (WsClose ws) s = Some s' →
    ∃ drained, settled s' = settled s ++ drained ∧
               drained.*1 = (pendingRequests s).*2 ∧
               StronglySorted lt drained.*1.
Proof.
  intros Huniq Hrun.
  assert (invariant uuidv4 s ∧ StronglySorted lt (pendingRequests s).*2)
    as [Hinv Hsorted].
  { revert tr s Hrun.
    apply (run_snoc_ind uuidv4
             (λ s, invariant uuidv4 s ∧ StronglySorted lt (pendingRequests s).*2)).
    - split; [apply invariant_init | constructor].
    - intros e s s' [Hinv Hsorted] Hstep.
      split; [by eapply step_invariant|].
      assert (∀ k, StronglySorted lt (JsMap.delete k (pendingRequests s)).*2)
        as Hdel.
      { intros k. eapply StronglySorted_sublist; [|exact Hsorted].
        apply fmap_sublist, delete_sublist. }
      destruct e as [c b|ws|ws parsed|ws|k|dt]; simpl in Hstep.
      + injection Hstep as <-. destruct (extensionSocket s) as [ws|] eqn:Hsock.
        * destruct (executeCommand_connected uuidv4 c b ws s Hsock)
            as (_ & _ & _ & _ & _ & _ & _ & -> & _).
          pose proof (fresh_key uuidv4 Huniq s Hinv) as Hfresh.
          destruct b; [by rewrite delete_set_absent|].
          rewrite set_absent, fmap_app by done.
          apply StronglySorted_app_2; [|done|repeat constructor].
          intros w1 w2 ([id w] & -> & Hin)%list_elem_of_fmap
            ->%list_elem_of_singleton.
          apply (inv_created _ _ Hinv _ _ Hin).
        * by rewrite (executeCommand_absent uuidv4 c b s Hsock).
      + case_decide; [done|]. by injection Hstep as <-.
      + case_decide; [|done]. injection Hstep as <-. unfold on_message.
        destruct parsed as [message|]; [|done].
        destruct (handleExtensionMessage_cases message s)
          as [[_ ->]|[->|(k & w & _ & _ & ->)]]; [done|done|]. apply Hdel.
      + case_decide; [|done]. injection Hstep as <-.
        destruct (on_close_fields ws
                    (with_clients (filter (λ c, c ≠ ws) (clients s)) s))
          as (_ & -> & _). constructor.
      + destruct (timers s !! k) as [t|]; [|done].
        case_decide; [|done]. injection Hstep as <-.
        unfold timeout_callback. simpl.
        destruct (JsMap.has (timer_id t) (pendingRequests s)); [apply Hdel|done].
      + by injection Hstep as <-. }
  split; [done|]. intros ws s' Hstep. simpl in Hstep.
  case_decide; [|done]. injection Hstep as <-.
  destruct (on_close_fields ws (with_clients (filter (λ c, c ≠ ws) (clients s)) s))
    as (_ & _ & -> & _). simpl.
  eexists. split; [done|].
  rewrite <- list_fmap_compose.
  assert ((fst ∘ (λ e : string * waiter, (e.2, extension_disconnected)))
            <$> pendingRequests s = (pendingRequests s).*2) as ->; done.
Qed.

(** ** Accounting *)
Lemma length_delete_present {V} k (m : list (string * V)) :
  NoDup m.*1 → k ∈ m.*1 → S (length (JsMap.delete k m)) = length m.
Proof.
  induction m as [|[k' v] m IH]; simpl.
  - intros _ Hin. by apply elem_of_nil in Hin.
  - rewrite NoDup_cons. intros [Hk' Hnd] Hin. case_decide as Hk.
    + subst k'. by rewrite delete_absent.
    + simpl. f_equal. apply IH; [done|].
      apply elem_of_cons in Hin as [->|Hin]; done.
Qed.

Lemma step_accounting uuidv4 e s s' :
  (∀ i j, uuidv4 i = uuidv4 j → i = j) →
  step uuidv4 e s = Some s' → invariant uuidv4 s →
  length (settled s) + length (pendingRequests s) = promises s →
  length (settled s') + length (pendingRequests s') = promises s' ∧
  promises s' = promises s + (if is_post e then 1 else 0).
Proof.
  intros Huniq Hstep Hinv Heq.
  assert (∀ k w (x : waiter * json),
            JsMap.get k (pendingRequests s) = Some w →
            length (settled s ++ [x]) +
            length (JsMap.delete k (pendingRequests s)) = promises s) as Hsettle.
  { intros k w x Hget. rewrite length_app. simpl.
    pose proof (length_delete_present k (pendingRequests s)
                  (inv_keys _ _ Hinv)) as Hlen.
    rewrite <- Heq, <- Hlen; [unfold waiter in *; lia|].
    apply list_elem_of_fmap. exists (k, w). split; [done|].
    by apply get_Some_elem. }
  unfold waiter in *.
  destruct e as [c b|ws|ws parsed|ws|k|dt]; simpl in *.
  - injection Hstep as <-. destruct (extensionSocket s) as [ws|] eqn:Hsock.
    + destruct (executeCommand_connected uuidv4 c b ws s Hsock)
        as (_ & _ & _ & _ & _ & -> & _ & -> & -> & _).
      unfold waiter in *.
      pose proof (fresh_key uuidv4 Huniq s Hinv) as Hfresh.
      destruct b.
      * rewrite delete_set_absent, length_app by done. simpl. unfold waiter in *. lia.
      * rewrite set_absent, length_app by done. simpl. unfold waiter in *. lia.
    + rewrite (executeCommand_absent uuidv4 c b s Hsock). simpl.
      rewrite length_app. simpl. unfold waiter in *. lia.
  - case_decide; [done|]. injection Hstep as <-. simpl. unfold waiter in *. lia.
  - case_decide; [|done]. injection Hstep as <-. unfold on_message.
    destruct parsed as [message|]; [|unfold waiter in *; lia].
    destruct (handleExtensionMessage_cases message s)
      as [[_ ->]|[->|(k & w & _ & Hget & ->)]]; [unfold waiter in *; lia|unfold waiter in *; lia|].
    simpl. split; [by eapply Hsettle | unfold waiter in *; lia].
  - case_decide; [|done]. injection Hstep as <-.
    destruct (on_close_fields ws (with_clients (filter (λ c, c ≠ ws) (clients s)) s))
      as (_ & -> & -> & _ & _ & -> & _).
    simpl. rewrite length_app, length_fmap. unfold waiter in *. lia.
  - destruct (timers s !! k) as [t|]; [|done].
    case_decide; [|done]. injection Hstep as <-.
    unfold timeout_callback, JsMap.has. simpl.
    destruct (JsMap.get (timer_id t) (pendingRequests s)) as [w|] eqn:Hget;
      simpl; [|unfold waiter in *; lia].
    split; [by eapply Hsettle | unfold waiter in *; lia].
  - injection Hstep as <-. simpl. unfold waiter in *. lia.
Qed.

Lemma run_accounting uuidv4 tr s s' :
  (∀ i j, uuidv4 i = uuidv4 j → i = j) →
  run uuidv4 tr s = Some s' → invariant uuidv4 s →
  length (settled s) + length (pendingRequests s) = promises s →
  length (settled s') + length (pendingRequests s') = promises s' ∧
  promises s' = promises s + length (filter (λ e, is_post e) tr).
Proof.
  intros Huniq. revert s. induction tr as [|e tr IH]; intros s; simpl.
  - intros [= <-] _ Heq. split; [done | lia].
  - destruct (step uuidv4 e s) as [s1|] eqn:E; [|done].
    intros Hrun Hinv Heq.
    destruct (step_accounting uuidv4 e s s1 Huniq E Hinv Heq) as [Heq1 Hp1].
    destruct (IH s1 Hrun (step_invariant uuidv4 Huniq _ _ _ E Hinv) Heq1)
      as [Heq' Hp'].
    split; [done|]. rewrite filter_cons, Hp', Hp1.
    destruct e; simpl; lia.
Qed.

(** X6: one Promise is made per call of [executeCommand], and at every
    moment the number of [resolve] calls made so far plus the size of the
    table equals the number of Promises made. *)
Theorem every_request_is_answered_or_pending uuidv4 tr s :
  (∀ i j, uuidv4 i = uuidv4 j → i = j) →
  run uuidv4 tr init = Some s →
  promises s = length (filter (λ e, is_post e) tr) ∧
  length (settled s) + pendingRequestCount s = promises s.
Proof.
  intros Huniq Hrun.
  destruct (run_accounting uuidv4 tr init s Huniq Hrun (invariant_init uuidv4))
    as [Heq Hp]; [done|].
  by split.
Qed.

(** ** The status endpoint *)

Section Observers.

Variable uuidv4 : nat → string.
Hypothesis uuidv4_unique : ∀ i j, uuidv4 i = uuidv4 j → i = j.

Lemma pending_waiters_unanswered s :
  invariant uuidv4 s → (pendingRequests s).*2 ≡ₚ unanswered s.
Proof.
  intros Hinv. apply NoDup_Permutation.
  - apply (inv_waiters _ _ Hinv).
  - apply NoDup_filter, NoDup_seq.
  - intros w. unfold unanswered. rewrite list_elem_of_filter, elem_of_seq. split.
    + intros Hin. pose proof Hin as ([id w'] & Hw & Hin')%list_elem_of_fmap.
      simpl in Hw. subst w'.
      pose proof (inv_created _ _ Hinv _ _ Hin') as Hlt.
      rewrite (pending_unsettled uuidv4 s id w Hinv Hin').
      split; [done | lia].
    + intros [Hnone [_ Hlt]]. simpl in Hlt.
      destruct (inv_once _ _ Hinv w Hlt) as [[_ ?]|[Hone _]]; [done|].
      rewrite Hone in Hnone. done.
Qed.

(** X7: the [pendingRequests] number of [GET /status] is the number of
    requests that have not been answered yet; it is 0 exactly when every
    request made so far has its one result. *)
Theorem status_counts_unanswered_requests tr s :
  run uuidv4 tr init = Some s →
  pendingRequestCount s = length (unanswered s) ∧
  (pendingRequestCount s = 0 ↔
   ∀ w, w < promises s → length (results_of w s) = 1).
Proof.
  intros Hrun.
  assert (invariant uuidv4 s) as Hinv.
  { apply (reachable_invariant uuidv4 uuidv4_unique). by exists tr. }
  pose proof (pending_waiters_unanswered s Hinv) as Hperm.
  assert (pendingRequestCount s = length (unanswered s)) as Hcount.
  { unfold pendingRequestCount, JsMap.size.
    rewrite <- (length_fmap snd). by apply Permutation_length. }
  split; [done|]. rewrite Hcount. split.
  - intros Hnil%nil_length_inv w Hlt.
    destruct (inv_once _ _ Hinv w Hlt) as [[Hnone _]|[Hone _]]; [|done].
    assert (w ∈ unanswered s) as Hin.
    { apply list_elem_of_filter. rewrite Hnone. split; [done|].
      apply elem_of_seq. lia. }
    rewrite Hnil in Hin. by apply elem_of_nil in Hin.
  - intros Hall. destruct (unanswered s) as [|w l] eqn:E; [done|].
    assert (w ∈ unanswered s) as Hin by (rewrite E; left).
    apply list_elem_of_filter in Hin as [Hnone [_ Hlt]%elem_of_seq].
    rewrite (Hall w) in Hnone by (simpl in Hlt; lia). done.
Qed.

End Observers.

(** * The extension's background script *)

Lemma stringify_four a b c d :
  ∃ fields,
    stringify_props [("id", a); ("success", b); ("data", c); ("error", d)]
      = JObj fields ∧
    fields !! "id" = a ∧ fields !! "success" = b ∧
    fields !! "data" = c ∧ fields !! "error" = d ∧
    ∀ name, name ∉ reply_fields → fields !! name = None.
Proof.
  eexists. split; [done|].
  assert (∀ name, name ∉ reply_fields →
            name ≠ "id" ∧ name ≠ "success" ∧ name ≠ "data" ∧ name ≠ "error")
    as Hout.
  { intros name Hn. repeat split; intros ->; apply Hn; unfold reply_fields;
      set_solver. }
  destruct a, b, c, d; simpl; repeat split;
    try (intros name (?&?&?&?)%Hout); by simplify_map_eq.
Qed.

Lemma stringify_three a b d :
  ∃ fields,
    stringify_props [("id", a); ("success", b); ("error", d)] = JObj fields ∧
    fields !! "id" = a ∧ fields !! "success" = b ∧
    fields !! "data" = None ∧ fields !! "error" = d ∧
    ∀ name, name ∉ reply_fields → fields !! name = None.
Proof.
  destruct (stringify_four a b None d) as (fields & Hs & H).
  exists fields. split; [|done]. rewrite <- Hs. by destruct a, b, d.
Qed.

Lemma bg_executeCommand_reply command page :
  command ≠ JNull →
  ∃ props fields,
    bg_executeCommand command page = Normal props ∧
    stringify_props props = JObj fields ∧
    fields !! "id" = get_field "id" command ∧
    (∀ name, name ∉ reply_fields → fields !! name = None) ∧
    reply_reports page fields.
Proof.
  intros Hnull.
  assert (∀ props, (match command with
                    | JNull => Throw "TypeError"
                    | _ => Normal props
                    end : completion (list (string * option json)))
                   = Normal props) as Hcmd.
  { intros props. by destruct command. }
  unfold bg_executeCommand. rewrite Hcmd. clear Hcmd.
  set (id := get_field "id" command).
  assert (∀ m, ∃ fields,
            stringify_props [("id", id); ("success", Some (JBool false));
                             ("error", Some (JStr m))] = JObj fields ∧
            fields !! "id" = id ∧
            (∀ name, name ∉ reply_fields → fields !! name = None) ∧
            fields !! "success" = Some (JBool false) ∧ fields !! "data" = None ∧
            fields !! "error" = Some (JStr m)) as Hfailed.
  { intros m. destruct (stringify_three id (Some (JBool false)) (Some (JStr m)))
      as (fields & ? & ? & ? & ? & ? & ?). by exists fields. }
  assert (∀ v, ∃ fields,
            stringify_props [("id", id); ("success", get_field "success" v);
                             ("data", get_field "data" v);
                             ("error", get_field "error" v)] = JObj fields ∧
            fields !! "id" = id ∧
            (∀ name, name ∉ reply_fields → fields !! name = None) ∧
            fields !! "success" = get_field "success" v ∧
            fields !! "data" = get_field "data" v ∧
            fields !! "error" = get_field "error" v) as Hresult.
  { intros v. destruct (stringify_four id (get_field "success" v)
                          (get_field "data" v) (get_field "error" v))
      as (fields & ? & ? & ? & ? & ? & ?). by exists fields. }
  destruct page as [m| |[m|m|[v|]]]; simpl.
  - destruct (Hfailed m) as (fields & ? & ? & ? & ?). by eexists _, fields.
  - destruct (Hfailed "No suitable tab found") as (fields & ? & ? & ? & ?).
    by eexists _, fields.
  - destruct (Hfailed m) as (fields & ? & ? & ? & ?). by eexists _, fields.
  - destruct (Hresult (stringify_props [("success", Some (JBool false));
                                        ("error", JStr <$> m)]))
      as (fields & ? & ? & ? & Hs & Hd & He).
    eexists _, fields. repeat split; try done; rewrite ?Hs, ?Hd, ?He;
      by destruct m.
  - destruct (truthy v) eqn:Ht.
    + destruct (Hresult v) as (fields & ? & ? & ? & ?). by eexists _, fields.
    + destruct (Hresult (failure "No response from content script"))
        as (fields & ? & ? & ? & ?). by eexists _, fields.
  - destruct (Hresult (failure "No response from content script"))
      as (fields & ? & ? & ? & ?). by eexists _, fields.
Qed.

(** X8: while connected, the background script answers every command
    other than [null] with exactly one frame: an object whose [id] is the
    command's [id] (absent when the command has none), whose [success],
    [data] and [error] report what the browser did, and which has no
    other property. *)
Theorem extension_reply_echoes_id command page bg sock :
  websocket bg = Some sock → isConnected bg = true → command ≠ JNull →
  ∃ bg' fields,
    handleBridgeMessage (Some command) page false bg = Normal bg' ∧
    to_bridge bg' = to_bridge bg ++ [JObj fields] ∧
    fields !! "id" = get_field "id" command ∧
    (∀ name, name ∉ reply_fields → fields !! name = None) ∧
    reply_reports page fields.
Proof.
  intros Hsock Hconn Hnull.
  destruct (bg_executeCommand_reply command page Hnull)
    as (props & fields & Hexec & Hstr & Hid & Hout & Hrep).
  eexists _, fields. split; [|split; [|done]].
  - unfold handleBridgeMessage. rewrite Hexec. done.
  - unfold sendToBridge. rewrite Hsock, Hconn. simpl. by rewrite Hstr.
Qed.

(** X9: for a frame that does not parse, or parses to [null], the
    background script sends nothing and [handleBridgeMessage] ends in a
    ReferenceError; nothing is sent either when it is not connected or the
    send throws.  A frame never makes it send more than one reply and never
    touches the connection state or the reconnect counters. *)
Theorem extension_is_silent_on_unreadable_frames parsed page send_throws bg bg' :
  bg_step (BgFrame parsed page send_throws) bg = Some bg' →
  (parsed = None ∨ parsed = Some JNull →
     handleBridgeMessage parsed page send_throws bg = Throw "ReferenceError" ∧
     bg' = bg) ∧
  (websocket bg = None ∨ isConnected bg = false ∨ send_throws = true →
     bg' = bg) ∧
  (to_bridge bg' = to_bridge bg ∨ ∃ reply, to_bridge bg' = to_bridge bg ++ [reply]) ∧
  websocket bg' = websocket bg ∧ isConnected bg' = isConnected bg ∧
  reconnectAttempts bg' = reconnectAttempts bg ∧ reconnects bg' = reconnects bg.
Proof.
  simpl. case_decide; [|done]. intros [= <-].
  assert (∀ props, sendToBridge props send_throws bg = bg ∨
                   sendToBridge props send_throws bg =
                     mkBackground (websocket bg) (isConnected bg)
                       (reconnectAttempts bg) (backoff bg) (sockets_made bg)
                       (reconnects bg) (armed_reconnects bg)
                       (to_bridge bg ++ [stringify_props props]) ∧
                   is_Some (websocket bg) ∧ isConnected bg = true ∧
                   send_throws = false) as Hsend.
  { intros props. unfold sendToBridge.
    destruct (websocket bg), (isConnected bg), send_throws; eauto. }
  split; [|split; [|split]].
  - intros [->| ->]; by destruct page.
  - intros Hoff. unfold handleBridgeMessage.
    destruct parsed as [message|]; [|done].
    destruct (bg_executeCommand message page) as [props|]; [|done].
    destruct (Hsend props) as [->|(_ & [? Hs] & Hc & Ht)]; [done|].
    destruct Hoff as [?|[?|?]]; congruence.
  - unfold handleBridgeMessage. destruct parsed as [message|]; [|by left].
    destruct (bg_executeCommand message page) as [props|]; [|by left].
    destruct (Hsend props) as [->|(-> & _)]; [by left | right; by eexists].
  - unfold handleBridgeMessage. destruct parsed as [message|]; [|done].
    destruct (bg_executeCommand message page) as [props|]; [|done].
    by destruct (Hsend props) as [->|(-> & _)].
Qed.

(** ** Bridge and extension together *)
(** X10: a command without an [id] of its own, sent by the bridge to a
    connected background script, comes back as a reply carrying the
    identifier the bridge drew; the bridge hands that reply to the caller
    who made the request.  The reply reports the page's [success], [data]
    and [error] and never has an [elementType]. *)
Theorem bridge_and_extension_round_trip uuidv4 tr s ws c page bg sock :
  (∀ i j, uuidv4 i = uuidv4 j → i = j) →
  run uuidv4 tr init = Some s → extensionSocket s = Some ws →
  own_props c !! "id" = None →
  websocket bg = Some sock → isConnected bg = true →
  let s1 := (executeCommand uuidv4 c false s).2 in
  ∃ message bg' fields,
    last (outbox s1) = Some (ws, message) ∧
    handleBridgeMessage (Some message) page false bg = Normal bg' ∧
    to_bridge bg' = to_bridge bg ++ [JObj fields] ∧
    fields !! "id" = Some (JStr (uuidv4 (uuid_calls s))) ∧
    fields !! "elementType" = None ∧
    reply_reports page fields ∧
    response (promises s) (on_message (Some (JObj fields)) s1)
      = Some (JObj fields).
Proof.
  intros Huniq Hrun Hsock Hnoid Hws Hconn s1.
  assert (invariant uuidv4 s) as Hinv.
  { apply (reachable_invariant uuidv4 Huniq). by exists tr. }
  destruct (executeCommand_connected uuidv4 c false ws s Hsock)
    as (_ & _ & _ & _ & _ & _ & _ & Hp & _ & Hout).
  fold s1 in Hp, Hout.
  destruct (spread_after_id_fields (uuidv4 (uuid_calls s)) c)
    as (m & Hm & _ & _ & Hid & _).
  rewrite Hm in Hout.
  destruct (bg_executeCommand_reply (JObj m) page)
    as (props & fields & Hexec & Hstr & Hfid & Hnames & Hrep); [done|].
  simpl in Hfid. rewrite (Hid Hnoid) in Hfid.
  assert (handleBridgeMessage (Some (JObj m)) page false bg
          = Normal (sendToBridge props false bg)) as Hh.
  { unfold handleBridgeMessage. by rewrite Hexec. }
  assert (to_bridge (sendToBridge props false bg) = to_bridge bg ++ [JObj fields])
    as Hto.
  { unfold sendToBridge. rewrite Hws, Hconn. simpl. by rewrite Hstr. }
  exists (JObj m), (sendToBridge props false bg), fields.
  split; [by rewrite Hout, last_snoc|]. split; [done|]. split; [done|].
  split; [done|]. split.
  { apply Hnames. unfold reply_fields.
    rewrite !elem_of_cons, elem_of_nil. intros [?|[?|[?|[?|[]]]]]; discriminate. }
  split; [done|].
  destruct (reply_resolves_its_waiter uuidv4 Huniq s1 fields
              (uuidv4 (uuid_calls s)) (promises s))
    as (s2 & Hh2 & _ & _ & _ & Hres & _); [|done| |].
  { by apply executeCommand_invariant. }
  { rewrite Hp. apply get_set_eq. }
  unfold on_message, response. by rewrite Hh2, Hres.
Qed.

(** ** Reconnecting *)

Lemma frame_only_sends parsed page t bg :
  let bg' := match handleBridgeMessage parsed page t bg with
             | Normal bg' => bg'
             | Throw _ => bg
             end in
  websocket bg' = websocket bg ∧ isConnected bg' = isConnected bg ∧
  reconnectAttempts bg' = reconnectAttempts bg ∧ backoff bg' = backoff bg ∧
  sockets_made bg' = sockets_made bg ∧ reconnects bg' = reconnects bg ∧
  armed_reconnects bg' = armed_reconnects bg.
Proof.
  cbv zeta. unfold handleBridgeMessage. destruct parsed as [message|]; [|done].
  destruct (bg_executeCommand message page) as [props|]; [|done].
  unfold sendToBridge.
  destruct (websocket bg) eqn:Hw, (isConnected bg) eqn:Hc, t; simpl;
    rewrite ?Hw, ?Hc; by repeat split.
Qed.

Lemma scheduleReconnect_counts bg extra :
  reconnects bg = seq 0 (length (reconnects bg)) →
  backoff bg = length (reconnects bg) →
  reconnectAttempts bg ≤ maxReconnectAttempts →
  sockets_made bg + armed_reconnects bg ≤ extra + length (reconnects bg) →
  let bg' := scheduleReconnect bg in
  reconnects bg' = seq 0 (length (reconnects bg')) ∧
  backoff bg' = length (reconnects bg') ∧
  reconnectAttempts bg' ≤ maxReconnectAttempts ∧
  sockets_made bg' + armed_reconnects bg' ≤ extra + length (reconnects bg').
Proof.
  intros Hseq Hb Ha Hs. unfold scheduleReconnect. case_decide; simpl.
  - rewrite length_app. simpl. rewrite Nat.add_1_r, seq_S. simpl.
    rewrite <- Hseq, Hb. repeat split; lia.
  - repeat split; try done; lia.
Qed.

Lemma bg_step_counts e bg bg' :
  bg_step e bg = Some bg' → bg_counts bg → bg_counts bg'.
Proof.
  unfold bg_counts. intros Hstep (Hseq & Hb & Ha & Hs).
  destruct e as [| |throws|parsed page t]; simpl in Hstep.
  - case_decide; [|done]. injection Hstep as <-. simpl.
    unfold maxReconnectAttempts. split; [done|]. split; [done|]. split; [lia|done].
  - case_decide; [|done]. injection Hstep as <-.
    by apply (scheduleReconnect_counts
                (mkBackground (websocket bg) false (reconnectAttempts bg)
                   (backoff bg) (sockets_made bg) (reconnects bg)
                   (armed_reconnects bg) (to_bridge bg)) 1).
  - destruct (armed_reconnects bg) as [|n] eqn:Harmed; [done|].
    injection Hstep as <-. unfold connectToBridge. destruct throws.
    + destruct (scheduleReconnect_counts
                  (mkBackground (websocket bg) (isConnected bg)
                     (reconnectAttempts bg) (backoff bg) (sockets_made bg)
                     (reconnects bg) n (to_bridge bg)) 0)
        as (?&?&?&?); try done; simpl; try lia. repeat split; try done. lia.
    + simpl. repeat split; try done. lia.
  - case_decide; [|done]. injection Hstep as <-.
    destruct (frame_only_sends parsed page t bg)
      as (_ & _ & -> & -> & -> & -> & ->). done.
Qed.

Lemma bg_start_counts throws : bg_counts (bg_start throws).
Proof. destruct throws; vm_compute; repeat split; lia. Qed.

Lemma bg_run_counts throws tr bg :
  bg_run tr (bg_start throws) = Some bg → bg_counts bg.
Proof.
  generalize (bg_start_counts throws). generalize (bg_start throws).
  induction tr as [|e tr IH]; intros bg0 H0; simpl.
  - by intros [= <-].
  - destruct (bg_step e bg0) as [bg1|] eqn:E; [|done].
    apply IH. by eapply bg_step_counts.
Qed.

(** X11: the k-th reconnect timer of the background script (k from 0) is
    armed with the initial delay multiplied k times by 1.5, and the delay
    field has been multiplied as often as timers were armed: a connection
    that opens resets the attempt counter but never the delay.  The
    attempt counter never exceeds 5. *)
Theorem reconnect_delay_is_never_reset throws tr bg :
  bg_run tr (bg_start throws) = Some bg →
  reconnects bg = seq 0 (length (reconnects bg)) ∧
  backoff bg = length (reconnects bg) ∧
  reconnectAttempts bg ≤ maxReconnectAttempts ∧
  sockets_made bg ≤ S (length (reconnects bg)).
Proof.
  intros Hrun.
  destruct (bg_run_counts throws tr bg Hrun) as (? & ? & ? & ?).
  repeat split; try done. lia.
Qed.

Lemma bg_run_without_open tr bg bg' f :
  (∀ e, e ∈ tr → e ≠ BgOpen) →
  bg_run tr bg = Some bg' →
  reconnectAttempts bg = length (reconnects bg) →
  length (reconnects bg) = f `min` maxReconnectAttempts →
  reconnectAttempts bg' = length (reconnects bg') ∧
  length (reconnects bg') =
    (f + length (filter (λ e, is_failure e) tr)) `min` maxReconnectAttempts.
Proof.
  revert bg f. induction tr as [|e tr IH]; intros bg f Hno; simpl.
  - intros [= <-] Ha Hl. by rewrite Nat.add_0_r.
  - destruct (bg_step e bg) as [bg1|] eqn:E; [|done].
    intros Hrun Ha Hl.
    assert (∀ e', e' ∈ tr → e' ≠ BgOpen) as Hno'.
    { intros e' He'. apply Hno. by right. }
    assert (∀ b : background,
              reconnectAttempts b = length (reconnects b) →
              length (reconnects b) = f `min` maxReconnectAttempts →
              reconnectAttempts (scheduleReconnect b)
                = length (reconnects (scheduleReconnect b)) ∧
              length (reconnects (scheduleReconnect b))
                = S f `min` maxReconnectAttempts) as Hsched.
    { intros b Hab Hlb. unfold scheduleReconnect, maxReconnectAttempts in *.
      case_decide; simpl; rewrite ?length_app; simpl; lia. }
    rewrite filter_cons.
    destruct e as [| |throws|parsed page t]; simpl in E.
    + exfalso. apply (Hno BgOpen); [left | done].
    + case_decide; [|done]. injection E as <-. simpl.
      replace (f + S (length (filter (λ e, is_failure e) tr)))
        with (S f + length (filter (λ e, is_failure e) tr)) by lia.
      apply (IH _ (S f) Hno' Hrun); by apply Hsched.
    + destruct (armed_reconnects bg) as [|n]; [done|]. injection E as <-.
      destruct throws; simpl.
      * replace (f + S (length (filter (λ e, is_failure e) tr)))
          with (S f + length (filter (λ e, is_failure e) tr)) by lia.
        apply (IH _ (S f) Hno' Hrun); by apply Hsched.
      * apply (IH _ f Hno' Hrun); done.
    + case_decide; [|done]. injection E as <-. simpl.
      destruct (frame_only_sends parsed page t bg)
        as (_ & _ & Hat & _ & _ & Hre & _).
      apply (IH _ f Hno' Hrun); by rewrite ?Hat, ?Hre.
Qed.

(** X12: as long as no connection opens, each failed attempt (a socket
    closing, or [new WebSocket] throwing) arms one reconnect timer, up to
    five; from the fifth on nothing is armed any more, so at most six
    sockets are ever made. *)
Theorem extension_gives_up_after_five_failures throws tr bg :
  (∀ e, e ∈ tr → e ≠ BgOpen) →
  bg_run tr (bg_start throws) = Some bg →
  length (reconnects bg) = failures throws tr `min` maxReconnectAttempts ∧
  reconnectAttempts bg = length (reconnects bg) ∧
  sockets_made bg ≤ 6.
Proof.
  intros Hno Hrun.
  destruct (bg_run_without_open tr (bg_start throws) bg
              (if throws then 1 else 0) Hno Hrun) as [Ha Hl].
  { by destruct throws. }
  { by destruct throws. }
  split; [done|]. split; [done|].
  destruct (bg_run_counts throws tr bg Hrun) as (_ & _ & _ & Hs).
  rewrite Hl in Hs. unfold maxReconnectAttempts in Hs. lia.
Qed.

(** * The further properties on sample runs *)

Lemma status_counts_unanswered_requests_witness :
  run demo_uuid two_pending init = Some (after two_pending) ∧
  pendingRequestCount (after two_pending) = length (unanswered (after two_pending)).
Proof.
  assert (run demo_uuid two_pending init = Some (after two_pending)) as Hrun
    by by_evaluation.
  split; [exact Hrun|].
  exact (proj1 (status_counts_unanswered_requests demo_uuid demo_uuid_unique
                  two_pending (after two_pending) Hrun)).
Defined.

Lemma socket_slot_is_latest_open_socket_witness :
  run demo_uuid connected init = Some (after connected) ∧
  extensionSocket (after connected) = Some 1 ∧
  last (clients (after connected)) = Some 1 ∧ 1 ∈ clients (after connected).
Proof.
  assert (run demo_uuid connected init = Some (after connected)) as Hrun
    by by_evaluation.
  assert (extensionSocket (after connected) = Some 1) as Hsock by by_evaluation.
  split; [exact Hrun|]. split; [exact Hsock|].
  exact (socket_slot_is_latest_open_socket demo_uuid connected (after connected) 1
           Hrun Hsock).
Defined.

Lemma pending_request_ends_within_thirty_seconds_witness :
  run demo_uuid one_pending init = Some (after one_pending) ∧
  JsMap.get "uuid-0" (pendingRequests (after one_pending)) = Some 0 ∧
  ∃ k t s',
    timers (after one_pending) !! k = Some t ∧ timer_id t = "uuid-0" ∧
    timer_resolve t = 0 ∧ (due t ≤ clock (after one_pending) + 30000)%N ∧
    run demo_uuid [Elapse 30000; TimerFires k] (after one_pending) = Some s' ∧
    response 0 s' = Some request_timeout ∧
    JsMap.has "uuid-0" (pendingRequests s') = false.
Proof.
  assert (run demo_uuid one_pending init = Some (after one_pending)) as Hrun
    by by_evaluation.
  assert (JsMap.get "uuid-0" (pendingRequests (after one_pending)) = Some 0)
    as Hget by by_evaluation.
  split; [exact Hrun|]. split; [exact Hget|].
  exact (pending_request_ends_within_thirty_seconds demo_uuid one_pending
           (after one_pending) "uuid-0" 0 demo_uuid_unique Hrun Hget).
Defined.

Lemma every_outbound_message_carries_an_id_witness :
  run demo_uuid two_pending init = Some (after two_pending) ∧
  length (outbox (after two_pending)) ≤ uuid_calls (after two_pending).
Proof.
  assert (run demo_uuid two_pending init = Some (after two_pending)) as Hrun
    by by_evaluation.
  split; [exact Hrun|].
  exact (proj2 (every_outbound_message_carries_an_id demo_uuid two_pending
                  (after two_pending) Hrun)).
Defined.

Lemma close_answers_oldest_first_witness :
  run demo_uuid two_pending init = Some (after two_pending) ∧
  StronglySorted lt (pendingRequests (after two_pending)).*2.
Proof.
  assert (run demo_uuid two_pending init = Some (after two_pending)) as Hrun
    by by_evaluation.
  split; [exact Hrun|].
  exact (proj1 (close_answers_oldest_first demo_uuid two_pending
                  (after two_pending) demo_uuid_unique Hrun)).
Defined.

Lemma every_request_is_answered_or_pending_witness :
  run demo_uuid timed_out init = Some (after timed_out) ∧
  length (settled (after timed_out)) + pendingRequestCount (after timed_out)
    = promises (after timed_out).
Proof.
  assert (run demo_uuid timed_out init = Some (after timed_out)) as Hrun
    by by_evaluation.
  split; [exact Hrun|].
  exact (proj2 (every_request_is_answered_or_pending demo_uuid timed_out
                  (after timed_out) demo_uuid_unique Hrun)).
Defined.

Lemma extension_reply_echoes_id_witness :
  websocket bg_connected = Some 0 ∧ isConnected bg_connected = true ∧
  spread_after_id "uuid-0" read_x ≠ JNull ∧
  ∃ bg' fields,
    handleBridgeMessage (Some (spread_after_id "uuid-0" read_x))
      page_says_hello false bg_connected = Normal bg' ∧
    to_bridge bg' = to_bridge bg_connected ++ [JObj fields] ∧
    fields !! "id" = get_field "id" (spread_after_id "uuid-0" read_x) ∧
    (∀ name, name ∉ reply_fields → fields !! name = None) ∧
    reply_reports page_says_hello fields.
Proof.
  assert (websocket bg_connected = Some 0) as Hsock by reflexivity.
  assert (isConnected bg_connected = true) as Hconn by reflexivity.
  assert (spread_after_id "uuid-0" read_x ≠ JNull) as Hnull by discriminate.
  split; [exact Hsock|]. split; [exact Hconn|]. split; [exact Hnull|].
  exact (extension_reply_echoes_id (spread_after_id "uuid-0" read_x)
           page_says_hello bg_connected 0 Hsock Hconn Hnull).
Defined.

Lemma extension_is_silent_on_unreadable_frames_witness :
  bg_step (BgFrame None NoSuitableTab false) bg_connected = Some bg_connected ∧
  handleBridgeMessage None NoSuitableTab false bg_connected
    = Throw "ReferenceError".
Proof.
  assert (bg_step (BgFrame None NoSuitableTab false) bg_connected
          = Some bg_connected) as Hstep by reflexivity.
  split; [exact Hstep|].
  exact (proj1 (proj1 (extension_is_silent_on_unreadable_frames
                         None NoSuitableTab false bg_connected bg_connected Hstep)
                      (or_introl eq_refl))).
Defined.

Lemma bridge_and_extension_round_trip_witness :
  run demo_uuid connected init = Some (after connected) ∧
  extensionSocket (after connected) = Some 1 ∧
  own_props read_x !! "id" = None ∧
  ∃ message bg' fields,
    last (outbox (executeCommand demo_uuid read_x false (after connected)).2)
      = Some (1, message) ∧
    handleBridgeMessage (Some message) page_says_hello false bg_connected
      = Normal bg' ∧
    to_bridge bg' = to_bridge bg_connected ++ [JObj fields] ∧
    fields !! "id" = Some (JStr (demo_uuid (uuid_calls (after connected)))) ∧
    fields !! "elementType" = None ∧
    reply_reports page_says_hello fields ∧
    response (promises (after connected))
      (on_message (Some (JObj fields))
         (executeCommand demo_uuid read_x false (after connected)).2)
      = Some (JObj fields).
Proof.
  assert (run demo_uuid connected init = Some (after connected)) as Hrun
    by by_evaluation.
  assert (extensionSocket (after connected) = Some 1) as Hsock by by_evaluation.
  assert (own_props read_x !! "id" = None) as Hnoid by by_evaluation.
  split; [exact Hrun|]. split; [exact Hsock|]. split; [exact Hnoid|].
  exact (bridge_and_extension_round_trip demo_uuid connected (after connected) 1
           read_x page_says_hello bg_connected 0 demo_uuid_unique Hrun Hsock
           Hnoid eq_refl eq_refl).
Defined.

Lemma reconnect_delay_is_never_reset_witness :
  bg_run drop_and_return (bg_start false) = Some (bg_after drop_and_return) ∧
  reconnects (bg_after drop_and_return)
    = seq 0 (length (reconnects (bg_after drop_and_return))) ∧
  backoff (bg_after drop_and_return)
    = length (reconnects (bg_after drop_and_return)).
Proof.
  assert (bg_run drop_and_return (bg_start false)
          = Some (bg_after drop_and_return)) as Hrun by by_evaluation.
  destruct (reconnect_delay_is_never_reset false drop_and_return
              (bg_after drop_and_return) Hrun) as (H1 & H2 & _).
  exact (conj Hrun (conj H1 H2)).
Defined.

Lemma seven_closes_without_open e : e ∈ seven_closes → e ≠ BgOpen.
Proof.
  unfold seven_closes. intros He.
  repeat (apply elem_of_cons in He as [->|He]; [discriminate|]).
  by apply elem_of_nil in He.
Qed.

Lemma extension_gives_up_after_five_failures_witness :
  bg_run seven_closes (bg_start false) = Some (bg_after seven_closes) ∧
  length (reconnects (bg_after seven_closes))
    = failures false seven_closes `min` maxReconnectAttempts ∧
  reconnectAttempts (bg_after seven_closes)
    = length (reconnects (bg_after seven_closes)) ∧
  sockets_made (bg_after seven_closes) ≤ 6.
Proof.
  assert (bg_run seven_closes (bg_start false) = Some (bg_after seven_closes))
    as Hrun by by_evaluation.
  split; [exact Hrun|].
  exact (extension_gives_up_after_five_failures false seven_closes
           (bg_after seven_closes) seven_closes_without_open Hrun).
Defined.

Example seven_closes_five_timers :
  failures false seven_closes = 7 ∧
  reconnects (bg_after seven_closes) = [0; 1; 2; 3; 4] ∧
  armed_reconnects (bg_after seven_closes) = 0.
Proof. repeat match goal with |- _ ∧ _ => split end; by_evaluation. Qed.

Example drop_and_return_delays :
  reconnects (bg_after drop_and_return) = [0; 1] ∧
  reconnectAttempts (bg_after drop_and_return) = 1.
Proof. repeat match goal with |- _ ∧ _ => split end; by_evaluation. Qed.
